(** * Wallet discovery of the Solana trading bot skeleton

    A shallow embedding of [wallet_utils.py] and [wallet_utilsmac.py]:
    the key-file decoder [load_keypair_from_json] and the two directory
    scans [load_all_wallets] and [list_public_keys_with_paths], over an
    explicit model of the POSIX file tree that [pathlib] observes.

    What the Python code gets from libraries it does not define (UTF-8
    decoding, [json.loads], [solders.keypair.Keypair], the password
    database behind [expanduser]) is an interface, [Platform]; every
    general theorem holds for all its instances. *)

From Stdlib Require Import ZArith String Ascii Strings.Byte.
From stdpp Require Import base list sorting strings pretty.

Set Warnings "-register-all".

Local Open Scope string_scope.
Local Open Scope list_scope.

(** ** Exceptions and results *)

(** The exception classes the modelled code can meet.  All of them derive
    from [Exception], so [except Exception] catches every one. *)
Inductive exn_class :=
  | ValueError | TypeError | RuntimeError
  | FileNotFoundError | NotADirectoryError | IsADirectoryError
  | UnicodeDecodeError | JSONDecodeError.

(** An exception object; [exn_msg] is what [str(exc)] gives. *)
Record exn := Exn { exn_cls : exn_class; exn_msg : string }.

(** A Python call either returns or raises. *)
Inductive result (A : Type) :=
  | Ok (a : A)
  | Raise (e : exn).
Arguments Ok {A} a.
Arguments Raise {A} e.

Global Instance result_ret : MRet result := λ A a, Ok a.
Global Instance result_bind : MBind result := λ A B f m,
  match m with Ok a => f a | Raise e => Raise e end.

Definition is_ok {A} (r : result A) : bool :=
  match r with Ok _ => true | Raise _ => false end.

Definition ok {A} (r : result A) : option A :=
  match r with Ok a => Some a | Raise _ => None end.

(** ** JSON values, as [json.loads] builds them *)

Inductive json :=
  | JNull
  | JBool (b : bool)
  | JInt (z : Z)
  | JFloat (repr : string)
  | JStr (s : string)
  | JList (l : list json)
  | JDict (kvs : list (string * json)).

(** ** Paths *)

(** A [pathlib] path is its tuple of parts: [Path("wallets/a.json")] is
    ["wallets"; "a.json"], [Path(".")] is the empty tuple and an absolute
    path starts with the part ["/"]. *)
Definition Path := list string.

Definition is_absolute (p : Path) : bool :=
  match p with "/" :: _ => true | _ => false end.

Fixpoint join_parts (ps : list string) : string :=
  match ps with
  | [] => ""
  | [x] => x
  | x :: ps' => x +:+ "/" +:+ join_parts ps'
  end.

(** [str(path)] *)
Definition Path_str (p : Path) : string :=
  match p with
  | [] => "."
  | "/" :: ps => "/" +:+ join_parts ps
  | _ => join_parts p
  end.

(** [path / name] *)
Definition child (p : Path) (rel : list string) : Path := p ++ rel.

(** [PurePath.__lt__] on POSIX compares the part tuples: the first
    differing component decides, by code point order of the strings, and a
    proper prefix is smaller. *)
Fixpoint parts_lt (a b : list string) : bool :=
  match a, b with
  | _, [] => false
  | [], _ :: _ => true
  | x :: a', y :: b' =>
      match String.compare x y with
      | Lt => true
      | Gt => false
      | Eq => parts_lt a' b'
      end
  end.

Definition Path_lt (p q : Path) : bool := parts_lt p q.

(** The order [sorted] sees through [<]: [p] may stay before [q] unless
    [q < p]. *)
Definition Path_le (p q : Path) : Prop := Path_lt q p = false.

Global Instance Path_le_dec p q : Decision (Path_le p q).
Proof. unfold Path_le. apply _. Defined.

(** [sorted(...)]: a stable merge sort driven by [<]. *)
Definition sorted (l : list Path) : list Path := merge_sort Path_le l.

(** ** The file tree *)

(** A directory lists its entries in the order the operating system
    returns them, which is arbitrary.  [Dangling] is a symbolic link whose
    target is missing: it has a name in its directory and nothing behind
    it. *)
Inductive node :=
  | File (data : string)
  | Dir (entries : list (string * node))
  | Dangling.

Record filesystem := { fs_root : node; fs_cwd : list string }.

Fixpoint lookup_entry (name : string) (es : list (string * node)) : option node :=
  match es with
  | [] => None
  | (n, c) :: es' => if String.eqb n name then Some c else lookup_entry name es'
  end.

Inductive errno := ENOENT | ENOTDIR.

(** Going down from a node along the parts of a path.  Every part is
    looked up as a name in the directory reached so far: [".."] is not
    taken to the parent directory, and the root ["//"] is not taken for
    ["/"].  The tree speaks for the paths without such parts
    ([plain_parts] below). *)
Fixpoint walk (n : node) (ps : list string) : errno + node :=
  match ps with
  | [] => inr n
  | name :: ps' =>
      match n with
      | Dir es =>
          match lookup_entry name es with
          | Some c => walk c ps'
          | None => inl ENOENT
          end
      | File _ => inl ENOTDIR
      | Dangling => inl ENOENT
      end
  end.

(** The node a path names, before a final symbolic link is followed. *)
Definition lstat (fs : filesystem) (p : Path) : errno + node :=
  match p with
  | "/" :: ps => walk (fs_root fs) ps
  | _ => walk (fs_root fs) (fs_cwd fs ++ p)
  end.

(** [os.stat]: a final dangling link is a missing file. *)
Definition stat (fs : filesystem) (p : Path) : errno + node :=
  match lstat fs p with
  | inr Dangling => inl ENOENT
  | r => r
  end.

(** [Path.exists()] *)
Definition Path_exists (fs : filesystem) (p : Path) : bool :=
  match stat fs p with inr _ => true | inl _ => false end.

(** The [OSError] raised for a path, with the text of [str(exc)]; the
    [repr] of the file name is written with plain single quotes. *)
Definition os_error (cls : exn_class) (code what : string) (p : Path) : exn :=
  Exn cls ("[Errno " +:+ code +:+ "] " +:+ what +:+ ": '" +:+ Path_str p +:+ "'").

(** ** Globbing *)

Fixpoint ends_with (suffix s : string) : bool :=
  String.eqb s suffix ||
  match s with
  | "" => false
  | String _ s' => ends_with suffix s'
  end.

(** [fnmatch] of a name against [*.json]: the compiled pattern is
    [(?s:.*\.json)\Z], case-sensitive on POSIX, with no special case for a
    leading dot. *)
Definition fnmatch_json (name : string) : bool := ends_with ".json" name.

(** The names in one directory that match [*.json], whatever they name. *)
Definition wildcard_json (here : list string) (es : list (string * node))
    : list (list string) :=
  omap (λ e, if fnmatch_json e.1 then Some (here ++ [e.1]) else None) es.

(** The selector of [**/*.json] below a starting directory: the matching
    entries of the directory itself, then those of every real
    subdirectory, recursively, in listing order. *)
Fixpoint select_from (n : node) (here : list string) : list (list string) :=
  match n with
  | Dir es =>
      wildcard_json here es ++
      flat_map (λ e, select_from e.2 (here ++ [e.1])) es
  | _ => []
  end.

(** [base.glob("**/*.json")]: nothing unless [base.is_dir()]. *)
Definition Path_glob (fs : filesystem) (base : Path) : list Path :=
  match stat fs base with
  | inr (Dir es) => child base <$> select_from (Dir es) []
  | _ => []
  end.

(** ** What the libraries provide *)

(** The library calls of the modules.  [utf8_decode] is the decoding done
    by [read_text(encoding="utf-8")], [json_loads] is [json.loads],
    [Keypair_from_bytes] is [solders.keypair.Keypair.from_bytes],
    [pubkey_str kp] is [str(kp.pubkey())] and [gethomedir user] is the
    home directory that [expanduser] finds for [~user] ([~] itself for the
    empty name), if there is one. *)
Class Platform := {
  utf8_decode : string → result string;
  json_loads : string → result json;
  Keypair : Type;
  Keypair_from_bytes : list byte → result Keypair;
  pubkey_str : Keypair → string;
  gethomedir : string → option Path;
}.

Section Builtins.
Context `{Platform}.

(** [path.read_text(encoding="utf-8")] *)
Definition read_text (fs : filesystem) (p : Path) : result string :=
  match stat fs p with
  | inr (File data) => utf8_decode data
  | inr (Dir _) => Raise (os_error IsADirectoryError "21" "Is a directory" p)
  | inr Dangling | inl ENOENT =>
      Raise (os_error FileNotFoundError "2" "No such file or directory" p)
  | inl ENOTDIR => Raise (os_error NotADirectoryError "20" "Not a directory" p)
  end.

(** What [bytes(iterable)] does with one element: it asks for its
    [__index__], which only [int] (and so [bool]) has, and wants the
    value in [range(0, 256)]. *)
Definition index_byte (j : json) : result byte :=
  let not_int (ty : string) : result byte :=
    Raise (Exn TypeError ("'" +:+ ty +:+ "' object cannot be interpreted as an integer")) in
  let of_int (z : Z) : result byte :=
    match (if (0 <=? z)%Z then Byte.of_N (Z.to_N z) else None) with
    | Some b => Ok b
    | None => Raise (Exn ValueError "bytes must be in range(0, 256)")
    end in
  match j with
  | JInt z => of_int z
  | JBool b => of_int (if b then 1 else 0)%Z
  | JNull => not_int "NoneType"
  | JFloat _ => not_int "float"
  | JStr _ => not_int "str"
  | JList _ => not_int "list"
  | JDict _ => not_int "dict"
  end.

(** [bytes(raw)] for a list [raw]: element by element, the first
    offending element raises. *)
Fixpoint bytes (raw : list json) : result (list byte) :=
  match raw with
  | [] => Ok []
  | j :: raw' => b ← index_byte j; bs ← bytes raw'; Ok (b :: bs)
  end.

Definition tilde_name (s : string) : bool :=
  match s with String "~" _ => true | _ => false end.

(** The paths that [expanduser] rewrites: relative, with a first part
    that starts with a tilde. *)
Definition tilde_head (p : Path) : bool :=
  match p with
  | p0 :: _ => negb (is_absolute p) && tilde_name p0
  | [] => false
  end.

(** [Path.expanduser()] *)
Definition expanduser (p : Path) : result Path :=
  match p with
  | p0 :: rest =>
      if negb (is_absolute p) && tilde_name p0 then
        match gethomedir (String.substring 1 (String.length p0 - 1) p0) with
        | Some homedir => Ok (homedir ++ rest)
        | None => Raise (Exn RuntimeError "Could not determine home directory.")
        end
      else Ok p
  | [] => Ok p
  end.

(** The marker that [list_public_keys_with_paths] stores for a file that
    failed to load, and the test the callers use to recognise it
    ([pubkey.startswith("<error:")]). *)
Definition error_marker (exc : exn) : string := "<error: " +:+ exn_msg exc +:+ ">".

Definition is_error_marker (s : string) : bool := String.prefix "<error:" s.
End Builtins.

(** ** Control flow *)

(** [try: body / except Exception as exc: handler(exc)] *)
Definition try_except {A} (body : result A) (handler : exn → result A) : result A :=
  match body with
  | Ok a => Ok a
  | Raise exc => handler exc
  end.

(** [for x in l: s = body(s, x)], leaving the loop when the body raises. *)
Fixpoint for_in {A S} (l : list A) (body : S → A → result S) (s : S) : result S :=
  match l with
  | [] => Ok s
  | x :: l' => s' ← body s x; for_in l' body s'
  end.

(** ** wallet_utils.py *)

Module wallet_utils.
Section wallet_utils.
Context `{Platform}.

Definition load_keypair_from_json (fs : filesystem) (json_path : Path)
    : result Keypair :=
  let path := json_path in
  text ← read_text fs path;
  raw ← json_loads text;
  match raw with
  | JList items =>
      secret_key_bytes ← bytes items;
      if negb (bool_decide (length secret_key_bytes = 64) ||
               bool_decide (length secret_key_bytes = 32)) then
        Raise (Exn ValueError
                 ("Unexpected secret key length " +:+
                  pretty (length secret_key_bytes) +:+ " in " +:+ Path_str path))
      else Keypair_from_bytes secret_key_bytes
  | _ =>
      Raise (Exn ValueError
               ("Invalid key file format (expected array): " +:+ Path_str path))
  end.

(** The body of the loop in [load_all_wallets]; the state is the list
    [keypairs] and the lines printed so far. *)
Definition load_all_wallets_body (fs : filesystem)
    (st : list Keypair * list string) (json_file : Path)
    : result (list Keypair * list string) :=
  let '(keypairs, stdout) := st in
  try_except
    (kp ← load_keypair_from_json fs json_file;
     Ok (keypairs ++ [kp], stdout))
    (λ exc,
      Ok (keypairs,
          stdout ++ ["Failed to load " +:+ Path_str json_file +:+ ": " +:+ exn_msg exc])).

(** Returns the keypairs and what was printed. *)
Definition load_all_wallets (fs : filesystem) (wallets_dir : Path)
    : result (list Keypair * list string) :=
  let base := wallets_dir in
  if negb (Path_exists fs base) then Ok ([], [])
  else for_in (sorted (Path_glob fs base)) (load_all_wallets_body fs) ([], []).

(** The body of the loop in [list_public_keys_with_paths]. *)
Definition list_public_keys_body (fs : filesystem)
    (results : list (string * string)) (json_file : Path)
    : result (list (string * string)) :=
  try_except
    (kp ← load_keypair_from_json fs json_file;
     let public_key_str := pubkey_str kp in
     Ok (results ++ [(Path_str json_file, public_key_str)]))
    (λ exc, Ok (results ++ [(Path_str json_file, error_marker exc)])).

Definition list_public_keys_with_paths (fs : filesystem) (wallets_dir : Path)
    : result (list (string * string)) :=
  let base := wallets_dir in
  let results := [] in
  if negb (Path_exists fs base) then Ok results
  else for_in (sorted (Path_glob fs base)) (list_public_keys_body fs) results.
End wallet_utils.
End wallet_utils.

(** ** wallet_utilsmac.py *)

Module wallet_utilsmac.
Section wallet_utilsmac.
Context `{Platform}.

Definition load_keypair_from_json (fs : filesystem) (json_path : Path)
    : result Keypair :=
  path ← expanduser json_path;
  if negb (Path_exists fs path) then
    Raise (Exn FileNotFoundError ("Wallet file not found: " +:+ Path_str path))
  else
    text ← read_text fs path;
    raw ← json_loads text;
    match raw with
    | JList items =>
        secret_key_bytes ← bytes items;
        if negb (bool_decide (length secret_key_bytes = 64) ||
                 bool_decide (length secret_key_bytes = 32)) then
          Raise (Exn ValueError
                   ("Unexpected secret key length " +:+
                    pretty (length secret_key_bytes) +:+ " in " +:+ Path_str path))
        else Keypair_from_bytes secret_key_bytes
    | _ =>
        Raise (Exn ValueError
                 ("Invalid key file format (expected array): " +:+ Path_str path))
    end.

Definition load_all_wallets_body (fs : filesystem)
    (st : list Keypair * list string) (json_file : Path)
    : result (list Keypair * list string) :=
  let '(keypairs, stdout) := st in
  try_except
    (kp ← load_keypair_from_json fs json_file;
     Ok (keypairs ++ [kp], stdout))
    (λ exc,
      Ok (keypairs,
          stdout ++ ["Failed to load " +:+ Path_str json_file +:+ ": " +:+ exn_msg exc])).

(** [expanduser] on the directory runs outside any [try]. *)
Definition load_all_wallets (fs : filesystem) (wallets_dir : Path)
    : result (list Keypair * list string) :=
  base ← expanduser wallets_dir;
  if negb (Path_exists fs base) then Ok ([], [])
  else for_in (sorted (Path_glob fs base)) (load_all_wallets_body fs) ([], []).

Definition list_public_keys_body (fs : filesystem)
    (results : list (string * string)) (json_file : Path)
    : result (list (string * string)) :=
  try_except
    (kp ← load_keypair_from_json fs json_file;
     Ok (results ++ [(Path_str json_file, pubkey_str kp)]))
    (λ exc, Ok (results ++ [(Path_str json_file, error_marker exc)])).

Definition list_public_keys_with_paths (fs : filesystem) (wallets_dir : Path)
    : result (list (string * string)) :=
  base ← expanduser wallets_dir;
  let results := [] in
  if negb (Path_exists fs base) then Ok results
  else for_in (sorted (Path_glob fs base)) (list_public_keys_body fs) results.
End wallet_utilsmac.
End wallet_utilsmac.

(** ** A concrete platform

    A small instance of [Platform] on which the functions run: it reads
    7-bit text, parses the JSON documents met in key files (an array of
    integer literals, a string without escapes), builds a keypair from
    exactly 64 bytes, which is the length
    [solders.keypair.Keypair.from_bytes] takes, prints the public half in
    base 58, and knows no home directory. *)

Module Reference.
Definition is_digit (c : ascii) : bool :=
  (48 <=? N_of_ascii c)%N && (N_of_ascii c <=? 57)%N.

Fixpoint read_digits (s : string) (acc : N) : N * string :=
  match s with
  | String c s' =>
      if is_digit c then read_digits s' (10 * acc + (N_of_ascii c - 48))%N
      else (acc, s)
  | "" => (acc, s)
  end.

Definition read_int (s : string) : option (Z * string) :=
  match s with
  | String "-" (String c _ as s') =>
      if is_digit c then
        let '(n, rest) := read_digits s' 0 in Some (- Z.of_N n, rest)%Z
      else None
  | String c _ =>
      if is_digit c then
        let '(n, rest) := read_digits s 0 in Some (Z.of_N n, rest)
      else None
  | "" => None
  end.

Fixpoint read_items (fuel : nat) (s : string) (acc : list json)
    : option (list json) :=
  match fuel with
  | O => None
  | S fuel' =>
      match read_int s with
      | Some (z, String "," rest) => read_items fuel' rest (acc ++ [JInt z])
      | Some (z, "]") => Some (acc ++ [JInt z])
      | _ => None
      end
  end.

Definition dquote : ascii := "034"%char.

Fixpoint read_string (s : string) : option string :=
  match s with
  | "" => None
  | String c s' =>
      if Ascii.eqb c dquote then (if String.eqb s' "" then Some "" else None)
      else if Ascii.eqb c "\"%char then None
      else String c <$> read_string s'
  end.

Definition expecting_value : exn :=
  Exn JSONDecodeError "Expecting value: line 1 column 1 (char 0)".

Definition loads (s : string) : result json :=
  match s with
  | "[]" => Ok (JList [])
  | String "[" rest =>
      match read_items (String.length rest) rest [] with
      | Some items => Ok (JList items)
      | None => Raise expecting_value
      end
  | String c rest =>
      if Ascii.eqb c dquote then
        match read_string rest with
        | Some lit => Ok (JStr lit)
        | None => Raise expecting_value
        end
      else Raise expecting_value
  | "" => Raise expecting_value
  end.

Fixpoint seven_bit (s : string) : bool :=
  match s with
  | "" => true
  | String c s' => (N_of_ascii c <? 128)%N && seven_bit s'
  end.

Definition decode (data : string) : result string :=
  if seven_bit data then Ok data
  else Raise (Exn UnicodeDecodeError "'utf-8' codec can't decode bytes: invalid start byte").

Definition b58_alphabet : list ascii :=
  list_ascii_of_string "123456789ABCDEFGHJKLMNPQRSTUVWXYZabcdefghijkmnopqrstuvwxyz".

Definition b58_char (d : N) : ascii := nth (N.to_nat d) b58_alphabet "1"%char.

Fixpoint b58_digits (fuel : nat) (n : N) (acc : string) : string :=
  match fuel with
  | O => acc
  | S fuel' =>
      if (n =? 0)%N then acc
      else b58_digits fuel' (n / 58)%N (String (b58_char (n mod 58)%N) acc)
  end.

Fixpoint leading_ones (bs : list byte) : string :=
  match bs with
  | x00 :: bs' => String "1" (leading_ones bs')
  | _ => ""
  end.

Definition bytes_to_N (bs : list byte) : N :=
  foldl (λ acc b, acc * 256 + Byte.to_N b)%N 0%N bs.

Definition base58 (bs : list byte) : string :=
  leading_ones bs +:+ b58_digits (2 * length bs) (bytes_to_N bs) "".

Definition from_bytes (bs : list byte) : result (list byte) :=
  if bool_decide (length bs = 64) then Ok bs
  else Raise (Exn ValueError
                ("expected a sequence of length 64 (got " +:+ pretty (length bs) +:+ ")")).

Definition platform : Platform := {|
  utf8_decode := decode;
  json_loads := loads;
  Keypair := list byte;
  Keypair_from_bytes := from_bytes;
  pubkey_str := λ kp, base58 (drop 32 kp);
  gethomedir := λ _, None;
|}.

(** The text of a JSON array holding the integers [first], [first+1],
    ..., [first+n-1]. *)
Fixpoint int_items (n : nat) (first : nat) : string :=
  match n with
  | O => ""
  | 1 => pretty first
  | S n' => pretty first +:+ "," +:+ int_items n' (S first)
  end.

Definition int_array (n first : nat) : string := "[" +:+ int_items n first +:+ "]".
End Reference.

(** * Vocabulary of the properties *)

Section Vocabulary.
Context `{Platform}.

(** The candidate key files of a directory, in the order the loops visit
    them. *)
Definition candidates (fs : filesystem) (d : Path) : list Path :=
  sorted (Path_glob fs d).

(** The result entry of one candidate. *)
Definition entry_of (fs : filesystem) (p : Path) : string * string :=
  match wallet_utils.load_keypair_from_json fs p with
  | Ok kp => (Path_str p, pubkey_str kp)
  | Raise exc => (Path_str p, error_marker exc)
  end.

(** The line [load_all_wallets] prints for a candidate, if any. *)
Definition failure_line (fs : filesystem) (p : Path) : option string :=
  match wallet_utils.load_keypair_from_json fs p with
  | Ok _ => None
  | Raise exc => Some ("Failed to load " +:+ Path_str p +:+ ": " +:+ exn_msg exc)
  end.

(** A key file is well-formed when every stage of the load succeeds on
    it: it is read as text, the text is a JSON array, the array converts
    to bytes, there are 32 or 64 of them, and the key library builds a
    keypair from them. *)
Definition well_formed (fs : filesystem) (p : Path) : Prop :=
  ∃ text items bs kp,
    read_text fs p = Ok text ∧
    json_loads text = Ok (JList items) ∧
    bytes items = Ok bs ∧
    (length bs = 32 ∨ length bs = 64) ∧
    Keypair_from_bytes bs = Ok kp.

(** The key material of a file: the bytes that pass the checks which
    [load_keypair_from_json] makes itself, before it calls the key
    library.  The file is read as text, the text is a JSON array, the
    array converts to bytes, and there are 32 of them (a seed) or 64 (a
    seed and its public key). *)
Definition key_material (fs : filesystem) (p : Path) : option (list byte) :=
  match read_text fs p with
  | Ok text =>
      match json_loads text with
      | Ok (JList items) =>
          match bytes items with
          | Ok bs =>
              if bool_decide (length bs = 32 ∨ length bs = 64) then Some bs else None
          | Raise _ => None
          end
      | _ => None
      end
  | Raise _ => None
  end.
End Vocabulary.

(** Two trees with the same contents: the same file data, and in every
    directory the same names (each once) over the same contents, listed
    in any order. *)
Fixpoint same_tree (n n' : node) : bool :=
  match n, n' with
  | File data, File data' => String.eqb data data'
  | Dangling, Dangling => true
  | Dir es, Dir es' =>
      bool_decide (NoDup es.*1) && bool_decide (NoDup es'.*1) &&
      bool_decide (length es = length es') &&
      forallb (λ e, match lookup_entry e.1 es' with
                    | Some c' => same_tree e.2 c'
                    | None => false
                    end) es
  | _, _ => false
  end.

Definition same_filesystem (fs fs' : filesystem) : bool :=
  same_tree (fs_root fs) (fs_root fs') && bool_decide (fs_cwd fs = fs_cwd fs').

(** What the recursive part of the selector yields below one name. *)
Definition select_below (es : list (string * node)) (here : list string)
    (name : string) : list (list string) :=
  match lookup_entry name es with
  | Some c => select_from c (here ++ [name])
  | None => []
  end.

(** Modelled from the spec: the modules have no lookup by public key.
    The spec's [get(pubkey)], which "returns the first successfully loaded
    match in scan order", is read on the list that
    [list_public_keys_with_paths] returns: the first entry that is not an
    error marker and that carries the public key. *)
Definition get (results : list (string * string)) (pubkey : string)
    : option (string * string) :=
  snd <$> list_find (λ e, is_error_marker e.2 = false ∧ e.2 = pubkey) results.

(** A string that does not start with ["<"]. *)
Definition no_angle (s : string) : Prop :=
  match s with
  | "" => True
  | String c _ => c ≠ "<"%char
  end.

(** ** Concrete file trees *)

Module Examples.
Import Reference.

(** The bytes [first], [first+1], ... *)
Definition byte_range (first n : nat) : list byte := omap Byte.of_nat (seq first n).

Definition key64 : string := int_array 64 1.
Definition seed32 : string := int_array 32 1.
Definition not_an_array : string :=
  String dquote ("not an array" +:+ String dquote "").

Definition tree (entries : list (string * node)) : filesystem :=
  {| fs_root := Dir entries; fs_cwd := [] |}.

(** [wallets/] with [a.json] (64 byte values), [b.json] (a JSON string)
    and [c.json] (32 byte values), in two listing orders. *)
Definition three_files : filesystem :=
  tree [("wallets", Dir [("c.json", File seed32);
                         ("a.json", File key64);
                         ("b.json", File not_an_array)])].

Definition three_files_relisted : filesystem :=
  tree [("wallets", Dir [("b.json", File not_an_array);
                         ("c.json", File seed32);
                         ("a.json", File key64)])].

(** No [wallets/] yet. *)
Definition no_wallets : filesystem := tree [("README.md", File "bot")].

(** A key file of three bytes. *)
Definition short_key : filesystem := tree [("wallets", Dir [("k.json", File "[1,2,3]")])].

(** The same key under two names, next to another key. *)
Definition twice : filesystem :=
  tree [("wallets", Dir [("y.json", File key64);
                         ("m.json", File (int_array 64 100));
                         ("x.json", File key64)])].

(** A key file whose name starts with a tilde, in the working
    directory. *)
Definition tilde_file : filesystem := tree [("~.json", File key64)].

(** A dangling link among the key files. *)
Definition dangling_link : filesystem := tree [("wallets", Dir [("x.json", Dangling)])].

(** Key files at three depths, next to files that are not named
    [*.json], in two listing orders. *)
Definition nested : filesystem :=
  tree [("wallets", Dir [("b.json", File not_an_array);
                         ("a-x.json", File seed32);
                         ("notes.txt", File key64);
                         ("a", Dir [("x.json", File key64);
                                    ("x.json.bak", File key64);
                                    ("old", Dir [("k.json", File (int_array 64 100));
                                                 ("json", File key64)])])]);
        ("top.json", File key64)].

Definition nested_relisted : filesystem :=
  tree [("top.json", File key64);
        ("wallets", Dir [("a", Dir [("old", Dir [("json", File key64);
                                                 ("k.json", File (int_array 64 100))]);
                                    ("x.json.bak", File key64);
                                    ("x.json", File key64)]);
                         ("notes.txt", File key64);
                         ("a-x.json", File seed32);
                         ("b.json", File not_an_array)])].
End Examples.

(** The public key of [Examples.key64] in base 58. *)
Definition key64_pubkey : string := "3ELeRTTg5W5hAYaEFznzFV1jknNFkjHqS8ytwvQEQP1Z".

(** The JSON integers [first], [first+1], ... *)
Definition int_values (first n : nat) : list json := (λ k, JInt (Z.of_nat k)) <$> seq first n.

(** * main.py

    The entry point: it takes the wallets directory from the environment,
    makes sure the directory exists and prints what
    [list_public_keys_with_paths] finds.  The environment is what
    [os.getenv] sees once [load_dotenv()] has run.  As in the rest of the
    file tree model, a path is resolved part by part: [".."] and the root
    ["//"] are looked up as names. *)

(** ** Building a path from a string *)

(** [s.split("/")] *)
Fixpoint split_sep (s : string) : list string :=
  match s with
  | "" => [""]
  | String c s' =>
      if Ascii.eqb c "/" then "" :: split_sep s'
      else match split_sep s' with
           | x :: xs => String c x :: xs
           | [] => [String c ""]
           end
  end.

(** [s.lstrip("/")] *)
Fixpoint lstrip_sep (s : string) : string :=
  match s with
  | String "/" s' => lstrip_sep s'
  | _ => s
  end.

(** [splitroot] of the POSIX flavour: exactly two leading slashes make the
    root ["//"], any other number of them the root ["/"]. *)
Definition splitroot (part : string) : string * string :=
  match part with
  | String "/" _ =>
      let stripped_part := lstrip_sep part in
      if Nat.eqb (String.length part - String.length stripped_part) 2
      then ("//", stripped_part)
      else ("/", stripped_part)
  | _ => ("", part)
  end.

(** [Path(s)]: the root, if any, then the components that are neither
    empty nor ["."]. *)
Definition Path_of_string (s : string) : Path :=
  let '(root, rel) := splitroot s in
  (if String.eqb root "" then [] else [root]) ++
  filter (λ x, x ≠ "" ∧ x ≠ ".") (split_sep rel).

(** [path.parent] *)
Definition Path_parent (p : Path) : Path :=
  match p with
  | [] => []
  | [_] => if is_absolute p then p else []
  | _ => removelast p
  end.

(** [Path.is_dir()] *)
Definition Path_is_dir (fs : filesystem) (p : Path) : bool :=
  match stat fs p with inr (Dir _) => true | _ => false end.

(** ** Making directories *)

(** The [OSError] classes that [os.mkdir] raises here. *)
Inductive mkdir_errno := FileExists | FileNotFound | NotADirectory.

(** The parts of a path from the root of the tree. *)
Definition abs_parts (fs : filesystem) (p : Path) : list string :=
  match p with
  | "/" :: ps => ps
  | _ => fs_cwd fs ++ p
  end.

(** Applies [f] to the entry that [lookup_entry] finds under [name]. *)
Fixpoint update_entry (name : string) (f : node → node)
    (es : list (string * node)) : list (string * node) :=
  match es with
  | [] => []
  | (n, c) :: es' =>
      if String.eqb n name then (n, f c) :: es'
      else (n, c) :: update_entry name f es'
  end.

(** The tree with a new, empty directory at [ps]. *)
Fixpoint add_dir (ps : list string) (n : node) : node :=
  match ps, n with
  | [name], Dir es => Dir (es ++ [(name, Dir [])])
  | name :: ps', Dir es => Dir (update_entry name (add_dir ps') es)
  | _, _ => n
  end.

(** [os.mkdir(p)]: the name must be free, in a directory that exists. *)
Definition os_mkdir (fs : filesystem) (p : Path) : (mkdir_errno * Path) + filesystem :=
  match lstat fs p with
  | inr _ => inl (FileExists, p)
  | inl ENOTDIR => inl (NotADirectory, p)
  | inl ENOENT =>
      match p with
      | [] => inl (FileNotFound, p)
      | _ =>
          match stat fs (removelast p) with
          | inr (Dir _) =>
              inr {| fs_root := add_dir (abs_parts fs p) (fs_root fs);
                     fs_cwd := fs_cwd fs |}
          | _ => inl (FileNotFound, p)
          end
      end
  end.

(** [p.mkdir(parents=True, exist_ok=True)].  On [FileNotFoundError] the
    parent is made first, in the same way, and [os.mkdir] is tried once
    more; any other [OSError] is dropped when the path is a directory.
    The recursion goes up one part at a time, so [length p] turns are
    enough. *)
Fixpoint Path_mkdir_parents (fuel : nat) (fs : filesystem) (p : Path)
    : (mkdir_errno * Path) + filesystem :=
  match os_mkdir fs p with
  | inr fs' => inr fs'
  | inl (FileNotFound, q) =>
      if decide (Path_parent p = p) then inl (FileNotFound, q)
      else
        match fuel with
        | O => inl (FileNotFound, q)
        | S fuel' =>
            match Path_mkdir_parents fuel' fs (Path_parent p) with
            | inl e => inl e
            | inr fs' =>
                match os_mkdir fs' p with
                | inr fs'' => inr fs''
                | inl (FileNotFound, q') => inl (FileNotFound, q')
                | inl e => if Path_is_dir fs' p then inr fs' else inl e
                end
            end
        end
  | inl e => if Path_is_dir fs p then inr fs else inl e
  end.

Definition Path_mkdir (fs : filesystem) (p : Path) : (mkdir_errno * Path) + filesystem :=
  Path_mkdir_parents (length p) fs p.

(** ** The entry point *)

(** What leaves [main] as an exception. *)
Inductive uncaught :=
  | OSError (cls : mkdir_errno) (p : Path)
  | Exception (exc : exn).

Module main.
Section main.
Context `{Platform}.

Definition no_wallets_message (wallets_dir : string) : string :=
  "No wallets found in '" +:+ wallets_dir +:+ "'. " +:+
  "Create wallets with 'solana-keygen new --outfile wallets\trader1.json' and re-run.".

Definition wallet_line (entry : string * string) : string :=
  let '(path_str, pubkey_str) := entry in
  "- " +:+ path_str +:+ ": " +:+ pubkey_str.

(** Returns the file tree it leaves and the lines it prints. *)
Definition main (environ : string → option string) (fs : filesystem)
    : uncaught + (filesystem * list string) :=
  let wallets_dir := default "wallets" (environ "WALLETS_DIR") in
  match Path_mkdir fs (Path_of_string wallets_dir) with
  | inl (cls, p) => inl (OSError cls p)
  | inr fs =>
      match wallet_utils.list_public_keys_with_paths fs (Path_of_string wallets_dir) with
      | Raise exc => inl (Exception exc)
      | Ok entries =>
          if bool_decide (entries = []) then
            inr (fs, [no_wallets_message wallets_dir])
          else
            inr (fs, foldl (λ stdout entry, stdout ++ [wallet_line entry])
                       ["Discovered wallets:"] entries)
      end
  end.
End main.
End main.

(** ** Vocabulary of the further properties *)

(** The JSON integer of a byte. *)
Definition json_of_byte (b : byte) : json := JInt (Z.of_N (Byte.to_N b)).

(** The byte that [bytes] makes of a boolean. *)
Definition byte_of_bool (b : bool) : byte := if b then x01 else x00.

(** The JSON values that [bytes] takes as one byte. *)
Definition is_byte_value (j : json) : bool :=
  match j with
  | JInt z => (0 <=? z)%Z && (z <? 256)%Z
  | JBool _ => true
  | _ => false
  end.

(** No directory of the tree lists a name twice. *)
Fixpoint unique_names (n : node) : bool :=
  match n with
  | Dir es => bool_decide (NoDup es.*1) && forallb (λ e, unique_names e.2) es
  | _ => true
  end.

Section MacVocabulary.
Context `{Platform}.

(** The result entry of one candidate in [wallet_utilsmac.py]. *)
Definition mac_entry_of (fs : filesystem) (p : Path) : string * string :=
  match wallet_utilsmac.load_keypair_from_json fs p with
  | Ok kp => (Path_str p, pubkey_str kp)
  | Raise exc => (Path_str p, error_marker exc)
  end.

(** The line [load_all_wallets] of [wallet_utilsmac.py] prints for a
    candidate, if any. *)
Definition mac_failure_line (fs : filesystem) (p : Path) : option string :=
  match wallet_utilsmac.load_keypair_from_json fs p with
  | Ok _ => None
  | Raise exc => Some ("Failed to load " +:+ Path_str p +:+ ": " +:+ exn_msg exc)
  end.
End MacVocabulary.

(** The paths that the file tree resolves as the operating system does,
    part by part: no part is [".."] and the root is not ["//"]. *)
Definition plain_parts (p : Path) : bool :=
  forallb (λ part, negb (String.eqb part "..") && negb (String.eqb part "//")) p.

(** The wallets directory that [main] takes from the environment. *)
Definition wallets_dir_of (environ : string → option string) : string :=
  default "wallets" (environ "WALLETS_DIR").

(** What [main] prints for the entries it gets. *)
Definition report (wallets_dir : string) (entries : list (string * string)) : list string :=
  match entries with
  | [] => [main.no_wallets_message wallets_dir]
  | _ => "Discovered wallets:" :: (main.wallet_line <$> entries)
  end.

(** ** More concrete inputs *)

Module MoreExamples.
Import Examples.

(** Reads [true,false,...]: the items of an array of booleans. *)
Fixpoint read_booleans (fuel : nat) (s : string) (acc : list bool) : option (list bool) :=
  match fuel with
  | O => None
  | S fuel' =>
      match s with
      | String "t" (String "r" (String "u" (String "e" rest))) =>
          match rest with
          | "]" => Some (acc ++ [true])
          | String "," rest' => read_booleans fuel' rest' (acc ++ [true])
          | _ => None
          end
      | String "f" (String "a" (String "l" (String "s" (String "e" rest)))) =>
          match rest with
          | "]" => Some (acc ++ [false])
          | String "," rest' => read_booleans fuel' rest' (acc ++ [false])
          | _ => None
          end
      | _ => None
      end
  end.

(** [Reference.loads], and arrays of booleans as well. *)
Definition loads_with_booleans (s : string) : result json :=
  match s with
  | String "[" rest =>
      match read_booleans (String.length rest) rest [] with
      | Some bl => Ok (JList (JBool <$> bl))
      | None => Reference.loads s
      end
  | _ => Reference.loads s
  end.

(** The concrete platform with that parser and with a home directory for
    the current user. *)
Definition platform : Platform := {|
  utf8_decode := Reference.decode;
  json_loads := loads_with_booleans;
  Keypair := list byte;
  Keypair_from_bytes := Reference.from_bytes;
  pubkey_str := λ kp, Reference.base58 (drop 32 kp);
  gethomedir := λ user, if String.eqb user "" then Some ["/"; "home"; "me"] else None;
|}.

(** The text of an array of [n] booleans, [true] first and alternating. *)
Fixpoint boolean_items (n : nat) (b : bool) : string :=
  match n with
  | O => ""
  | 1 => if b then "true" else "false"
  | S n' => (if b then "true," else "false,") +:+ boolean_items n' (negb b)
  end.

Fixpoint alternating (n : nat) (b : bool) : list bool :=
  match n with
  | O => []
  | S n' => b :: alternating n' (negb b)
  end.

(** A key file of 64 booleans and one with a value out of range. *)
Definition odd_keys : filesystem :=
  tree [("wallets", Dir [("flags.json", File ("[" +:+ boolean_items 64 true +:+ "]"));
                         ("big.json", File "[1,2,300,4]")])].

(** The wallets of the user, under the home directory; the working
    directory is the home directory. *)
Definition home_wallets : filesystem :=
  {| fs_root := Dir [("home", Dir [("me", Dir [("wallets", Dir [("a.json", File key64);
                                                                 ("b.json", File not_an_array)])])])];
     fs_cwd := ["home"; "me"] |}.

(** [Examples.no_wallets] once [wallets/] is made. *)
Definition no_wallets_after : filesystem :=
  tree [("README.md", File "bot"); ("wallets", Dir [])].
End MoreExamples.

(** The environment with [WALLETS_DIR] set, or not. *)
Definition environ_with (wallets_dir : option string) (name : string) : option string :=
  if String.eqb name "WALLETS_DIR" then wallets_dir else None.

(** * Properties *)

(** ** The order on paths *)

Lemma string_compare_refl (s : string) : String.compare s s = Eq.
Proof.
  induction s as [|c s IH]; simpl; [done|].
  unfold Ascii.compare. by rewrite N.compare_refl.
Qed.

Lemma string_compare_lt_trans (a b c : string) :
  String.compare a b = Lt → String.compare b c = Lt → String.compare a c = Lt.
Proof.
  revert b c. induction a as [|x a IH]; intros [|y b] [|z c]; simpl; try done.
  unfold Ascii.compare.
  destruct (N.compare_spec (N_of_ascii x) (N_of_ascii y)) as [Exy|Lxy|Gxy];
    destruct (N.compare_spec (N_of_ascii y) (N_of_ascii z)) as [Eyz|Lyz|Gyz];
    try done; intros Hab Hbc.
  - rewrite Exy, Eyz, N.compare_refl. eauto.
  - rewrite Exy. by apply N.compare_lt_iff in Lyz as ->.
  - rewrite <- Eyz. by apply N.compare_lt_iff in Lxy as ->.
  - assert (N_of_ascii x < N_of_ascii z)%N as Hlt by lia.
    by apply N.compare_lt_iff in Hlt as ->.
Qed.

Lemma string_compare_gt_lt (a b : string) :
  String.compare a b = Gt ↔ String.compare b a = Lt.
Proof.
  rewrite (String.compare_antisym b a). destruct (String.compare a b); simpl; naive_solver.
Qed.

Lemma parts_lt_irrefl (a : list string) : parts_lt a a = false.
Proof. induction a as [|x a IH]; simpl; [done|]. by rewrite string_compare_refl. Qed.

Lemma parts_lt_trans (a b c : list string) :
  parts_lt a b = true → parts_lt b c = true → parts_lt a c = true.
Proof.
  revert b c. induction a as [|x a IH]; intros [|y b] [|z c]; simpl; try done.
  destruct (String.compare x y) eqn:Hxy; try done;
    destruct (String.compare y z) eqn:Hyz; try done; intros Hab Hbc.
  - apply String.compare_eq_iff in Hxy as ->. apply String.compare_eq_iff in Hyz as ->.
    rewrite string_compare_refl. eauto.
  - apply String.compare_eq_iff in Hxy as ->. by rewrite Hyz.
  - apply String.compare_eq_iff in Hyz as <-. by rewrite Hxy.
  - by rewrite (string_compare_lt_trans x y z).
Qed.

Lemma parts_lt_trichotomy (a b : list string) :
  parts_lt a b = false → parts_lt b a = false → a = b.
Proof.
  revert b. induction a as [|x a IH]; intros [|y b]; simpl; try done.
  rewrite (String.compare_antisym y x).
  destruct (String.compare x y) eqn:Hxy; simpl; try done.
  apply String.compare_eq_iff in Hxy as ->. intros. f_equal. eauto.
Qed.

Lemma parts_lt_asym (a b : list string) : parts_lt a b = true → parts_lt b a = false.
Proof.
  intros Hab. destruct (parts_lt b a) eqn:Hba; [|done].
  pose proof (parts_lt_trans _ _ _ Hab Hba) as Haa.
  by rewrite parts_lt_irrefl in Haa.
Qed.

Global Instance Path_le_total : Total Path_le.
Proof.
  intros p q. unfold Path_le, Path_lt.
  destruct (parts_lt q p) eqn:Hqp; [right|by left]. by apply parts_lt_asym.
Qed.

Global Instance Path_le_refl : Reflexive Path_le.
Proof. intros p. apply parts_lt_irrefl. Qed.

Global Instance Path_le_trans : Transitive Path_le.
Proof.
  intros p q r Hpq Hqr. unfold Path_le, Path_lt in *.
  destruct (parts_lt r p) eqn:Hrp; [|done].
  destruct (parts_lt p q) eqn:Hlt.
  - by rewrite (parts_lt_trans _ _ _ Hrp Hlt) in Hqr.
  - rewrite (parts_lt_trichotomy _ _ Hlt Hpq) in Hrp. congruence.
Qed.

Global Instance Path_le_antisym : AntiSymm (=) Path_le.
Proof. intros p q Hpq Hqp. by apply parts_lt_trichotomy. Qed.

Lemma sorted_Permutation (l : list Path) : sorted l ≡ₚ l.
Proof. apply merge_sort_Permutation. Qed.

Lemma sorted_StronglySorted (l : list Path) : StronglySorted Path_le (sorted l).
Proof. apply StronglySorted_merge_sort; apply _. Qed.

(** The sorted list does not depend on the order in which the paths were
    enumerated. *)
Lemma sorted_proper (l1 l2 : list Path) : l1 ≡ₚ l2 → sorted l1 = sorted l2.
Proof.
  intros Hperm. apply (StronglySorted_unique Path_le).
  - apply sorted_StronglySorted.
  - apply sorted_StronglySorted.
  - by rewrite !sorted_Permutation.
Qed.

(** ** The scans as maps over the candidate files *)

Section Scan.
Context `{Platform}.


Lemma load_ok_iff fs p kp :
  wallet_utils.load_keypair_from_json fs p = Ok kp ↔
  ∃ text items bs,
    read_text fs p = Ok text ∧ json_loads text = Ok (JList items) ∧
    bytes items = Ok bs ∧ (length bs = 32 ∨ length bs = 64) ∧
    Keypair_from_bytes bs = Ok kp.
Proof.
  unfold wallet_utils.load_keypair_from_json. split.
  - destruct (read_text fs p) as [text|]; simpl; [|done].
    destruct (json_loads text) as [[| | | | |items|]|] eqn:Hraw; simpl; try done.
    destruct (bytes items) as [bs|] eqn:Hbs; simpl; [|done].
    repeat case_bool_decide; simpl; try done; intros;
      exists text, items, bs; repeat split; auto.
  - intros (text & items & bs & Htext & Hraw & Hbs & Hlen & Hkp).
    rewrite Htext; simpl. rewrite Hraw; simpl. rewrite Hbs; simpl.
    destruct Hlen as [Hlen|Hlen]; rewrite Hlen; simpl; done.
Qed.

Lemma well_formed_iff fs p :
  well_formed fs p ↔ is_ok (wallet_utils.load_keypair_from_json fs p) = true.
Proof.
  split.
  - intros (text & items & bs & kp & Hw).
    assert (wallet_utils.load_keypair_from_json fs p = Ok kp) as ->; [|done].
    apply load_ok_iff. eauto.
  - destruct (wallet_utils.load_keypair_from_json fs p) as [kp|] eqn:Hl; [|done].
    intros _. apply load_ok_iff in Hl as (text & items & bs & Hl).
    exists text, items, bs, kp. done.
Qed.

Global Instance well_formed_dec fs p : Decision (well_formed fs p).
Proof.
  refine (cast_if (decide (is_ok (wallet_utils.load_keypair_from_json fs p) = true)));
    abstract (by rewrite well_formed_iff).
Defined.

Lemma list_public_keys_body_ok fs results p :
  wallet_utils.list_public_keys_body fs results p = Ok (results ++ [entry_of fs p]).
Proof.
  unfold wallet_utils.list_public_keys_body, entry_of.
  by destruct (wallet_utils.load_keypair_from_json fs p).
Qed.

Lemma list_public_keys_run fs l results :
  for_in l (wallet_utils.list_public_keys_body fs) results =
  Ok (results ++ (entry_of fs <$> l)).
Proof.
  revert results. induction l as [|p l IH]; intros results; simpl.
  - by rewrite app_nil_r.
  - rewrite list_public_keys_body_ok. simpl. rewrite IH.
    by rewrite <- app_assoc.
Qed.

Lemma load_all_wallets_run fs l keypairs stdout :
  for_in l (wallet_utils.load_all_wallets_body fs) (keypairs, stdout) =
  Ok (keypairs ++ omap (λ p, ok (wallet_utils.load_keypair_from_json fs p)) l,
      stdout ++ omap (failure_line fs) l).
Proof.
  revert keypairs stdout. induction l as [|p l IH]; intros keypairs stdout; simpl.
  - by rewrite !app_nil_r.
  - unfold failure_line.
    destruct (wallet_utils.load_keypair_from_json fs p) as [kp|exc]; simpl;
      rewrite IH, <- app_assoc; done.
Qed.

Lemma Path_glob_not_exists fs d : Path_exists fs d = false → Path_glob fs d = [].
Proof. unfold Path_exists, Path_glob. by destruct (stat fs d). Qed.

Lemma sorted_nil : sorted [] = [].
Proof. done. Qed.

(** [list_public_keys_with_paths] maps [entry_of] over the candidates. *)
Lemma list_public_keys_with_paths_eq fs d :
  wallet_utils.list_public_keys_with_paths fs d = Ok (entry_of fs <$> candidates fs d).
Proof.
  unfold wallet_utils.list_public_keys_with_paths, candidates.
  destruct (Path_exists fs d) eqn:Hex; simpl.
  - by rewrite list_public_keys_run.
  - by rewrite Path_glob_not_exists.
Qed.

Lemma load_all_wallets_eq fs d :
  wallet_utils.load_all_wallets fs d =
  Ok (omap (λ p, ok (wallet_utils.load_keypair_from_json fs p)) (candidates fs d),
      omap (failure_line fs) (candidates fs d)).
Proof.
  unfold wallet_utils.load_all_wallets, candidates.
  destruct (Path_exists fs d) eqn:Hex; simpl.
  - by rewrite load_all_wallets_run.
  - by rewrite Path_glob_not_exists.
Qed.

Lemma is_error_marker_error_marker exc : is_error_marker (error_marker exc) = true.
Proof. done. Qed.

Lemma entry_of_fst fs p : (entry_of fs p).1 = Path_str p.
Proof. unfold entry_of. by destruct (wallet_utils.load_keypair_from_json fs p). Qed.

Lemma candidates_length fs d : length (candidates fs d) = length (Path_glob fs d).
Proof. unfold candidates. by rewrite sorted_Permutation. Qed.
End Scan.

(** ** Loading a directory *)

Section Claims.
Context `{Platform}.

Lemma entry_of_well_formed fs p :
  well_formed fs p →
  ∃ kp, wallet_utils.load_keypair_from_json fs p = Ok kp ∧
        entry_of fs p = (Path_str p, pubkey_str kp).
Proof.
  rewrite well_formed_iff. unfold entry_of.
  destruct (wallet_utils.load_keypair_from_json fs p) as [kp|]; [eauto|done].
Qed.

Lemma entry_of_not_well_formed fs p :
  ¬ well_formed fs p →
  ∃ exc, wallet_utils.load_keypair_from_json fs p = Raise exc ∧
         entry_of fs p = (Path_str p, error_marker exc).
Proof.
  rewrite well_formed_iff. unfold entry_of.
  destruct (wallet_utils.load_keypair_from_json fs p) as [|exc]; [done|eauto].
Qed.

(** With public keys printed in base 58, which has no ["<"], the marker
    test on an entry tells whether its file was well-formed. *)
Lemma entry_marker_iff fs p :
  (∀ kp, is_error_marker (pubkey_str kp) = false) →
  is_error_marker (entry_of fs p).2 = false ↔ well_formed fs p.
Proof.
  intros Hb58. destruct (decide (well_formed fs p)) as [Hwf|Hwf].
  - destruct (entry_of_well_formed _ _ Hwf) as (kp & _ & ->). simpl. naive_solver.
  - destruct (entry_of_not_well_formed _ _ Hwf) as (exc & _ & ->). simpl.
    rewrite is_error_marker_error_marker. naive_solver.
Qed.

Lemma entries_count fs l :
  (∀ kp, is_error_marker (pubkey_str kp) = false) →
  length (filter (λ e, is_error_marker e.2 = false) (entry_of fs <$> l)) =
    length (filter (well_formed fs) l) ∧
  length (filter (λ e, is_error_marker e.2 = true) (entry_of fs <$> l)) =
    length l - length (filter (well_formed fs) l).
Proof.
  intros Hb58. induction l as [|p l [IH1 IH2]]; [done|].
  pose proof (entry_marker_iff fs p Hb58) as Hp.
  pose proof (length_filter (well_formed fs) l) as Hle.
  rewrite fmap_cons, !filter_cons.
  destruct (decide (well_formed fs p)) as [Hwf|Hwf].
  - apply Hp in Hwf as Hm. rewrite Hm. simpl. rewrite IH1, IH2. lia.
  - assert (is_error_marker (entry_of fs p).2 = true) as Hm.
    { apply not_false_iff_true. intros Hf. by apply Hwf, Hp. }
    rewrite Hm. simpl. rewrite IH1, IH2. lia.
Qed.

Lemma entries_Forall2 fs l :
  Forall2 (λ p e,
      e.1 = Path_str p ∧
      if decide (well_formed fs p)
      then ∃ kp, wallet_utils.load_keypair_from_json fs p = Ok kp ∧
                 e.2 = pubkey_str kp
      else ∃ exc, wallet_utils.load_keypair_from_json fs p = Raise exc ∧
                  e.2 = error_marker exc)
    l (entry_of fs <$> l).
Proof.
  induction l as [|p l IH]; constructor; [|done].
  split; [apply entry_of_fst|].
  destruct (decide (well_formed fs p)) as [Hwf|Hwf].
  - destruct (entry_of_well_formed _ _ Hwf) as (kp & Hl & ->). eauto.
  - destruct (entry_of_not_well_formed _ _ Hwf) as (exc & Hl & ->). eauto.
Qed.

Lemma key_material_Some fs p bs :
  key_material fs p = Some bs →
  wallet_utils.load_keypair_from_json fs p = Keypair_from_bytes bs ∧
  (length bs = 32 ∨ length bs = 64).
Proof.
  unfold key_material, wallet_utils.load_keypair_from_json.
  destruct (read_text fs p) as [text|]; simpl; [|done].
  destruct (json_loads text) as [[| | | | |items|]|]; simpl; try done.
  destruct (bytes items) as [bs'|]; simpl; [|done].
  case_bool_decide as Hlen; [|done]. intros [= ->].
  split; [|done]. destruct Hlen as [-> | ->]; done.
Qed.

Lemma key_material_None fs p :
  key_material fs p = None →
  is_ok (wallet_utils.load_keypair_from_json fs p) = false.
Proof.
  unfold key_material, wallet_utils.load_keypair_from_json.
  destruct (read_text fs p) as [text|]; simpl; [|done].
  destruct (json_loads text) as [[| | | | |items|]|]; simpl; try done.
  destruct (bytes items) as [bs'|]; simpl; [|done].
  case_bool_decide as Hlen; [done|]. intros _.
  rewrite !bool_decide_eq_false_2 by tauto. done.
Qed.

(** The entry of a candidate, told from its key material. *)
Lemma entry_of_key_material fs p :
  (∀ bs, length bs ≠ 64 → is_ok (Keypair_from_bytes bs) = false) →
  (entry_of fs p).1 = Path_str p ∧
  match key_material fs p with
  | Some bs =>
      match Keypair_from_bytes bs with
      | Ok kp => length bs = 64 ∧ (entry_of fs p).2 = pubkey_str kp
      | Raise exc => (entry_of fs p).2 = error_marker exc
      end
  | None => is_error_marker (entry_of fs p).2 = true
  end.
Proof.
  intros H64. split; [apply entry_of_fst|].
  destruct (key_material fs p) as [bs|] eqn:Hm.
  - destruct (key_material_Some _ _ _ Hm) as [Hload _].
    unfold entry_of. rewrite Hload.
    destruct (Keypair_from_bytes bs) as [kp|exc] eqn:Hkp; [|done].
    split; [|done]. destruct (decide (length bs = 64)) as [|Hne]; [done|].
    specialize (H64 bs Hne). by rewrite Hkp in H64.
  - apply key_material_None in Hm. unfold entry_of.
    by destruct (wallet_utils.load_keypair_from_json fs p).
Qed.

Lemma seed_entry_is_marker fs p :
  (∀ bs, length bs ≠ 64 → is_ok (Keypair_from_bytes bs) = false) →
  length <$> key_material fs p = Some 32 →
  is_error_marker (entry_of fs p).2 = true.
Proof.
  intros H64 Hseed. destruct (entry_of_key_material fs p H64) as [_ He].
  destruct (key_material fs p) as [bs|]; [|done].
  injection Hseed as Hlen.
  destruct (Keypair_from_bytes bs) as [kp|exc]; [|by rewrite He].
  destruct He as [Hlen' _]. congruence.
Qed.

Lemma no_material_entry_is_marker fs p :
  key_material fs p = None → is_error_marker (entry_of fs p).2 = true.
Proof.
  intros Hm%key_material_None. unfold entry_of.
  by destruct (wallet_utils.load_keypair_from_json fs p).
Qed.

(** Key entries, seed files and files with key material among any
    paths. *)
Lemma entries_against_key_material fs (l : list Path) :
  (∀ bs, length bs ≠ 64 → is_ok (Keypair_from_bytes bs) = false) →
  (length (filter (λ e, is_error_marker e.2 = false) (entry_of fs <$> l)) +
   length (filter (λ p, length <$> key_material fs p = Some 32) l)
   ≤ length (filter (λ p, is_Some (key_material fs p)) l))%nat ∧
  length (filter (λ e, is_error_marker e.2 = false) (entry_of fs <$> l)) +
  length (filter (λ e, is_error_marker e.2 = true) (entry_of fs <$> l)) = length l.
Proof.
  intros H64. induction l as [|p l [IH1 IH2]]; [done|].
  rewrite fmap_cons.
  destruct (key_material fs p) as [bs|] eqn:Hm.
  - rewrite (filter_cons_True (λ p, is_Some (key_material fs p))) by (by rewrite Hm).
    destruct (decide (length <$> key_material fs p = Some 32)) as [Hseed|Hseed].
    + pose proof (seed_entry_is_marker fs p H64 Hseed) as Hmark.
      rewrite (filter_cons_True (λ p, length <$> key_material fs p = Some 32)) by done.
      rewrite (filter_cons_False (λ e, is_error_marker e.2 = false)) by congruence.
      rewrite (filter_cons_True (λ e, is_error_marker e.2 = true)) by done.
      simpl. lia.
    + rewrite (filter_cons_False (λ p, length <$> key_material fs p = Some 32)) by done.
      destruct (is_error_marker (entry_of fs p).2) eqn:Hmark.
      * rewrite (filter_cons_False (λ e, is_error_marker e.2 = false)) by congruence.
        rewrite (filter_cons_True (λ e, is_error_marker e.2 = true)) by done.
        simpl. lia.
      * rewrite (filter_cons_True (λ e, is_error_marker e.2 = false)) by done.
        rewrite (filter_cons_False (λ e, is_error_marker e.2 = true)) by congruence.
        simpl. lia.
  - pose proof (no_material_entry_is_marker fs p Hm) as Hmark.
    rewrite (filter_cons_False (λ p, is_Some (key_material fs p)))
      by (rewrite Hm; by intros [? ?]).
    rewrite (filter_cons_False (λ p, length <$> key_material fs p = Some 32))
      by (by rewrite Hm).
    rewrite (filter_cons_False (λ e, is_error_marker e.2 = false)) by congruence.
    rewrite (filter_cons_True (λ e, is_error_marker e.2 = true)) by done.
    simpl. lia.
Qed.

Lemma entries_key_material_Forall2 fs (l : list Path) :
  (∀ bs, length bs ≠ 64 → is_ok (Keypair_from_bytes bs) = false) →
  Forall2 (λ p e,
      e.1 = Path_str p ∧
      match key_material fs p with
      | Some bs =>
          match Keypair_from_bytes bs with
          | Ok kp => length bs = 64 ∧ e.2 = pubkey_str kp
          | Raise exc => e.2 = error_marker exc
          end
      | None => is_error_marker e.2 = true
      end)
    l (entry_of fs <$> l).
Proof.
  intros H64. induction l as [|p l IH]; constructor; [|done].
  apply (entry_of_key_material fs p H64).
Qed.

(** C1, on the code.  A directory with [N] candidate key files, [K] of
    them with key material (32 or 64 byte values in a JSON array), [S] of
    these being seeds of 32 bytes; [Keypair.from_bytes] of solders takes
    64 bytes and raises on any other length.
    [list_public_keys_with_paths] returns, without raising, exactly [N]
    entries, one per candidate and in the order of the candidates,
    whatever the files hold.  The entry of a file without key material
    is an error marker; the entry of a file with key material carries the
    public key when the key library accepts the bytes, which it does for
    64 bytes at most, and the marker of the library's exception
    otherwise.  So every seed file gets a failure reason: counted by the
    marker test of the callers, at most [K - S] entries carry a public
    key and at least [N - K + S] a failure reason, not [K] and
    [N - K]. *)
Theorem list_public_keys_against_key_material fs d N K S :
  (∀ bs, length bs ≠ 64 → is_ok (Keypair_from_bytes bs) = false) →
  length (Path_glob fs d) = N →
  length (filter (λ p, is_Some (key_material fs p)) (Path_glob fs d)) = K →
  length (filter (λ p, length <$> key_material fs p = Some 32) (Path_glob fs d)) = S →
  ∃ results,
    wallet_utils.list_public_keys_with_paths fs d = Ok results ∧
    length results = N ∧
    Forall2 (λ p e,
        e.1 = Path_str p ∧
        match key_material fs p with
        | Some bs =>
            match Keypair_from_bytes bs with
            | Ok kp => length bs = 64 ∧ e.2 = pubkey_str kp
            | Raise exc => e.2 = error_marker exc
            end
        | None => is_error_marker e.2 = true
        end)
      (candidates fs d) results ∧
    (length (filter (λ e, is_error_marker e.2 = false) results) + S ≤ K)%nat ∧
    (N - K + S ≤ length (filter (λ e, is_error_marker e.2 = true) results))%nat.
Proof.
  intros H64 HN HK HS. exists (entry_of fs <$> candidates fs d).
  destruct (entries_against_key_material fs (candidates fs d) H64) as [Hle Hsum].
  assert (length (filter (λ p, is_Some (key_material fs p)) (candidates fs d)) = K) as HK'.
  { unfold candidates. by rewrite sorted_Permutation. }
  assert (length (filter (λ p, length <$> key_material fs p = Some 32) (candidates fs d)) = S)
    as HS'.
  { unfold candidates. by rewrite sorted_Permutation. }
  rewrite HK', HS' in Hle. rewrite candidates_length, HN in Hsum.
  split; [apply list_public_keys_with_paths_eq|].
  split; [by rewrite length_fmap, candidates_length|].
  split; [by apply entries_key_material_Forall2|].
  pose proof (length_filter (λ p, is_Some (key_material fs p)) (Path_glob fs d)) as HKN.
  split; lia.
Qed.

Lemma filter_iff_elem {A} (P Q : A → Prop) `{!∀ x, Decision (P x)} `{!∀ x, Decision (Q x)}
    (l : list A) :
  (∀ x, x ∈ l → P x ↔ Q x) → filter P l = filter Q l.
Proof.
  induction l as [|x l IH]; [done|]. intros HPQ.
  assert (filter P l = filter Q l) as IH' by (apply IH; intros y Hy; apply HPQ; by right).
  destruct (decide (P x)) as [HP|HP].
  - rewrite !filter_cons_True, IH'; [done| |done]. apply HPQ; [left|done].
  - rewrite !filter_cons_False, IH'; [done| |done]. intros HQ. apply HP, HPQ; [left|done].
Qed.

(** When the key library accepts the key material of every candidate
    that has some, the counts are those of the files with key material:
    the loop and the checks are not what loses the seed files. *)
Lemma list_public_keys_if_material_were_accepted fs d :
  (∀ kp, is_error_marker (pubkey_str kp) = false) →
  (∀ p bs, p ∈ Path_glob fs d → key_material fs p = Some bs →
           is_ok (Keypair_from_bytes bs) = true) →
  ∃ results,
    wallet_utils.list_public_keys_with_paths fs d = Ok results ∧
    length (filter (λ e, is_error_marker e.2 = false) results) =
      length (filter (λ p, is_Some (key_material fs p)) (Path_glob fs d)) ∧
    length (filter (λ e, is_error_marker e.2 = true) results) =
      length (Path_glob fs d) -
      length (filter (λ p, is_Some (key_material fs p)) (Path_glob fs d)).
Proof.
  intros Hb58 Hacc. exists (entry_of fs <$> candidates fs d).
  split; [apply list_public_keys_with_paths_eq|].
  destruct (entries_count fs (candidates fs d) Hb58) as [Hpk Herr].
  assert (length (filter (well_formed fs) (candidates fs d)) =
          length (filter (λ p, is_Some (key_material fs p)) (Path_glob fs d))) as Heq.
  { transitivity (length (filter (λ p, is_Some (key_material fs p)) (candidates fs d)));
      [|unfold candidates; by rewrite sorted_Permutation].
    f_equal. apply filter_iff_elem. intros p Hp.
    assert (p ∈ Path_glob fs d) as Hg
      by (unfold candidates in Hp; by rewrite sorted_Permutation in Hp).
    rewrite well_formed_iff. split.
    - intros Hok. destruct (key_material fs p) as [bs|] eqn:Hm; [done|].
      apply key_material_None in Hm. congruence.
    - intros [bs Hm]. destruct (key_material_Some _ _ _ Hm) as [-> _]. by apply (Hacc p). }
  rewrite Hpk, Herr, Heq, candidates_length. done.
Qed.

(** C3.  When the file parses to a byte sequence whose length is neither
    32 nor 64, [load_keypair_from_json] raises the [ValueError] whose
    message gives that length, so no keypair is returned. *)
Theorem load_keypair_invalid_length fs p text items bs :
  read_text fs p = Ok text →
  json_loads text = Ok (JList items) →
  bytes items = Ok bs →
  length bs ≠ 32 →
  length bs ≠ 64 →
  wallet_utils.load_keypair_from_json fs p =
    Raise (Exn ValueError
             ("Unexpected secret key length " +:+ pretty (length bs) +:+
              " in " +:+ Path_str p)).
Proof.
  intros Htext Hraw Hbs H32 H64. unfold wallet_utils.load_keypair_from_json.
  rewrite Htext; simpl. rewrite Hraw; simpl. rewrite Hbs; simpl.
  by rewrite !bool_decide_eq_false_2.
Qed.

(** C4.  For a path that does not exist, both directory scans of
    [wallet_utils.py] return the empty list (and [load_all_wallets]
    prints nothing); neither raises. *)
Theorem missing_directory_is_empty fs d :
  Path_exists fs d = false →
  wallet_utils.list_public_keys_with_paths fs d = Ok [] ∧
  wallet_utils.load_all_wallets fs d = Ok ([], []).
Proof.
  intros Hex.
  unfold wallet_utils.list_public_keys_with_paths, wallet_utils.load_all_wallets.
  by rewrite Hex.
Qed.

Lemma read_text_content fs1 p1 fs2 p2 data :
  stat fs1 p1 = inr (File data) → stat fs2 p2 = inr (File data) →
  read_text fs1 p1 = read_text fs2 p2.
Proof. unfold read_text. by intros -> ->. Qed.
End Claims.

(** ** The file tree and the glob *)


Lemma node_ind_nested (P : node → Prop) :
  (∀ data, P (File data)) →
  (∀ es, Forall (λ e, P e.2) es → P (Dir es)) →
  P Dangling →
  ∀ n, P n.
Proof.
  intros Hfile Hdir Hdangling. fix IH 1. intros [data|es|].
  - apply Hfile.
  - apply Hdir. induction es as [|[name c] es IHes]; constructor; [apply IH|apply IHes].
  - apply Hdangling.
Qed.

Lemma lookup_entry_elem name es c : lookup_entry name es = Some c → (name, c) ∈ es.
Proof.
  induction es as [|[n c0] es IH]; simpl; [done|].
  destruct (String.eqb n name) eqn:Heq.
  - apply String.eqb_eq in Heq as ->. intros [= ->]. left.
  - intros Hl. right. auto.
Qed.

Lemma lookup_entry_NoDup name es c :
  NoDup es.*1 → (name, c) ∈ es → lookup_entry name es = Some c.
Proof.
  induction es as [|[n c0] es IH]; simpl; [by intros _ ?%elem_of_nil|].
  intros [Hn Hnd]%NoDup_cons [[= -> ->]|Hin]%elem_of_cons.
  - by rewrite String.eqb_refl.
  - destruct (String.eqb n name) eqn:Heq; [|auto].
    apply String.eqb_eq in Heq as ->. destruct Hn.
    apply list_elem_of_fmap. by exists (name, c).
Qed.

Lemma lookup_entry_None name es : lookup_entry name es = None ↔ name ∉ es.*1.
Proof.
  induction es as [|[n c0] es IH]; simpl.
  - split; [intros _ ?%elem_of_nil; done|done].
  - rewrite not_elem_of_cons. destruct (String.eqb n name) eqn:Heq.
    + apply String.eqb_eq in Heq as ->. split; [done|by intros [? _]].
    + apply String.eqb_neq in Heq. rewrite IH.
      split; [by intros; split; [congruence|]|by intros [_ ?]].
Qed.

Lemma lookup_entry_is_Some name es : is_Some (lookup_entry name es) ↔ name ∈ es.*1.
Proof.
  rewrite <- not_eq_None_Some, lookup_entry_None.
  destruct (decide (name ∈ es.*1)); naive_solver.
Qed.

Lemma walk_app n ps qs :
  walk n (ps ++ qs) =
  match walk n ps with inr m => walk m qs | inl e => inl e end.
Proof.
  revert n. induction ps as [|name ps IH]; intros n; simpl; [done|].
  destruct n as [|es|]; try done. destruct (lookup_entry name es); auto.
Qed.

(** The names that match [*.json] are those that end in [.json]. *)
Lemma ends_with_unfold suffix s :
  ends_with suffix s =
  String.eqb s suffix ||
  match s with "" => false | String _ s' => ends_with suffix s' end.
Proof. by destruct s. Qed.

Lemma ends_with_spec suffix s :
  ends_with suffix s = true ↔ ∃ stem, s = stem +:+ suffix.
Proof.
  split.
  - induction s as [|c s IH]; rewrite ends_with_unfold.
    + rewrite orb_false_r. intros Heq%String.eqb_eq. by exists "".
    + intros [Heq%String.eqb_eq|Hs]%orb_true_iff; [by exists ""|].
      destruct (IH Hs) as [stem ->]. by exists (String c stem).
  - intros [stem ->]. induction stem as [|c stem IH]; rewrite ends_with_unfold.
    + change ("" +:+ suffix) with suffix. by rewrite String.eqb_refl.
    + change (String c stem +:+ suffix) with (String c (stem +:+ suffix)).
      cbv iota. rewrite IH. apply orb_true_r.
Qed.

Lemma fnmatch_json_spec name :
  fnmatch_json name = true ↔ ∃ stem, name = stem +:+ ".json".
Proof. apply ends_with_spec. Qed.

(** Every path the glob yields lies below the base and its last part
    matches [*.json]. *)
Lemma select_from_sound n here p :
  p ∈ select_from n here →
  ∃ rel name, p = here ++ rel ++ [name] ∧ fnmatch_json name = true.
Proof.
  revert here. induction n as [data|es IH|] using node_ind_nested; intros here; simpl;
    [by intros ?%elem_of_nil| |by intros ?%elem_of_nil].
  intros [Hin|Hin]%elem_of_app.
  - apply list_elem_of_omap in Hin as ([name c] & _ & Hm). simpl in Hm.
    destruct (fnmatch_json name) eqn:Hfn; [|done]. injection Hm as <-.
    by exists [], name.
  - apply list_elem_of_In, in_flat_map in Hin as ([name c] & Hin & Hp).
    apply list_elem_of_In in Hin, Hp. simpl in Hp.
    rewrite Forall_forall in IH. apply (IH _ Hin) in Hp as (rel & name' & -> & Hfn).
    exists (name :: rel), name'. by rewrite <- app_assoc.
Qed.

(** Every entry below the base whose name matches [*.json], whatever it
    is, is yielded. *)
Lemma select_from_complete n here rel name c :
  walk n (rel ++ [name]) = inr c →
  fnmatch_json name = true →
  here ++ rel ++ [name] ∈ select_from n here.
Proof.
  revert n here. induction rel as [|d rel IH]; intros n here Hwalk Hfn; simpl in *.
  - destruct n as [|es|]; try done.
    destruct (lookup_entry name es) as [c'|] eqn:Hl; [|done].
    simpl. apply elem_of_app. left. apply list_elem_of_omap.
    exists (name, c'). split; [by apply lookup_entry_elem|]. simpl. by rewrite Hfn.
  - destruct n as [|es|]; try done.
    destruct (lookup_entry d es) as [c'|] eqn:Hl; [|done].
    simpl. apply elem_of_app. right.
    apply list_elem_of_In, in_flat_map. exists (d, c').
    split; [by apply list_elem_of_In, lookup_entry_elem|].
    apply list_elem_of_In. simpl.
    specialize (IH c' (here ++ [d]) Hwalk Hfn). by rewrite <- app_assoc in IH.
Qed.

Lemma same_tree_Dir_inv es es' :
  same_tree (Dir es) (Dir es') = true →
  NoDup es.*1 ∧ NoDup es'.*1 ∧ es.*1 ≡ₚ es'.*1 ∧
  ∀ name c, lookup_entry name es = Some c →
            ∃ c', lookup_entry name es' = Some c' ∧ same_tree c c' = true.
Proof.
  simpl. rewrite !andb_true_iff, !bool_decide_eq_true, forallb_forall.
  intros [[[Hnd Hnd'] Hlen] Hall].
  assert (∀ name c, lookup_entry name es = Some c →
            ∃ c', lookup_entry name es' = Some c' ∧ same_tree c c' = true) as Hsub.
  { intros name c Hl%lookup_entry_elem%list_elem_of_In. specialize (Hall _ Hl).
    simpl in Hall. destruct (lookup_entry name es') as [c'|]; [eauto|done]. }
  repeat split; try done.
  apply submseteq_length_Permutation; [|by rewrite !length_fmap, Hlen].
  apply NoDup_submseteq; [done|].
  intros name [c Hl]%lookup_entry_is_Some.
  destruct (Hsub _ _ Hl) as (c' & Hl' & _). apply lookup_entry_is_Some. eauto.
Qed.

Lemma same_tree_walk ps : ∀ n n',
  same_tree n n' = true →
  match walk n ps, walk n' ps with
  | inr m, inr m' => same_tree m m' = true
  | inl e, inl e' => e = e'
  | _, _ => False
  end.
Proof.
  induction ps as [|name ps IH]; intros n n' Hsame; simpl; [done|].
  destruct n as [data|es|], n' as [data'|es'|]; try done.
  destruct (same_tree_Dir_inv _ _ Hsame) as (_ & _ & Hperm & Hsub).
  destruct (lookup_entry name es) as [c|] eqn:Hl.
  - destruct (Hsub _ _ Hl) as (c' & -> & Hc). by apply IH.
  - apply lookup_entry_None in Hl. rewrite Hperm in Hl.
    apply lookup_entry_None in Hl. by rewrite Hl.
Qed.

Lemma wildcard_json_names here es :
  wildcard_json here es =
  omap (λ name, if fnmatch_json name then Some (here ++ [name]) else None) es.*1.
Proof.
  unfold wildcard_json. induction es as [|[name c] es IH]; [done|].
  rewrite fmap_cons. cbn [omap list_omap fst]. rewrite IH. done.
Qed.


Lemma flat_map_ext_elem {A B} (f g : A → list B) l :
  (∀ x, x ∈ l → f x = g x) → flat_map f l = flat_map g l.
Proof.
  induction l as [|x l IH]; simpl; [done|]. intros Hfg.
  rewrite (Hfg x), IH; [done| |left]. intros y Hy. apply Hfg. by right.
Qed.

Lemma flat_map_Permutation_pointwise {A B} (f g : A → list B) l :
  (∀ x, f x ≡ₚ g x) → flat_map f l ≡ₚ flat_map g l.
Proof. intros Hfg. induction l as [|x l IH]; simpl; [done|]. by rewrite Hfg, IH. Qed.

Lemma flat_map_fmap {A B C} (f : B → list C) (g : A → B) l :
  flat_map f (g <$> l) = flat_map (λ x, f (g x)) l.
Proof.
  induction l as [|x l IH]; [done|].
  rewrite fmap_cons. cbn [flat_map]. by rewrite IH.
Qed.

Lemma select_from_names es here :
  NoDup es.*1 →
  flat_map (λ e, select_from e.2 (here ++ [e.1])) es =
  flat_map (select_below es here) es.*1.
Proof.
  intros Hnd. rewrite flat_map_fmap. apply flat_map_ext_elem.
  intros [name c] Hin. unfold select_below. simpl.
  by rewrite (lookup_entry_NoDup name es c).
Qed.

(** The glob of two trees with the same contents yields the same paths,
    possibly in another order. *)
Lemma same_tree_select_from n : ∀ n' here,
  same_tree n n' = true → select_from n here ≡ₚ select_from n' here.
Proof.
  induction n as [data|es IH|] using node_ind_nested; intros n' here Hsame;
    destruct n' as [data'|es'|]; try done.
  destruct (same_tree_Dir_inv _ _ Hsame) as (Hnd & Hnd' & Hperm & Hsub).
  simpl. rewrite !wildcard_json_names, !select_from_names by done.
  rewrite Hperm at 1. apply Permutation_app_head.
  rewrite Hperm. apply flat_map_Permutation_pointwise.
  intros name. unfold select_below.
  destruct (lookup_entry name es) as [c|] eqn:Hl.
  - destruct (Hsub _ _ Hl) as (c' & -> & Hc).
    rewrite Forall_forall in IH.
    apply (IH (name, c)); [by apply lookup_entry_elem|done].
  - apply lookup_entry_None in Hl. rewrite Hperm in Hl.
    apply lookup_entry_None in Hl. by rewrite Hl.
Qed.

Lemma same_filesystem_lstat fs fs' p :
  same_filesystem fs fs' = true →
  match lstat fs p, lstat fs' p with
  | inr m, inr m' => same_tree m m' = true
  | inl e, inl e' => e = e'
  | _, _ => False
  end.
Proof.
  unfold same_filesystem, lstat.
  rewrite andb_true_iff, bool_decide_eq_true. intros [Hroot <-].
  destruct p as [|p0 ps]; [by apply same_tree_walk|].
  destruct (String.eqb p0 "/") eqn:Heq.
  - apply String.eqb_eq in Heq as ->. by apply same_tree_walk.
  - assert (∀ (X : Type) (a b : X),
       match p0 :: ps with "/" :: qs => a | _ => b end = b) as Hne.
    { intros X a b. apply String.eqb_neq in Heq.
      destruct p0 as [|[[] [] [] [] [] [] [] []] []]; try done. }
    rewrite !Hne. by apply same_tree_walk.
Qed.

(** ** Order, candidates and agreement of the two scans *)

Section Enumeration.
Context `{Platform}.

Lemma same_filesystem_stat fs fs' p :
  same_filesystem fs fs' = true →
  match stat fs p, stat fs' p with
  | inr m, inr m' => same_tree m m' = true
  | inl e, inl e' => e = e'
  | _, _ => False
  end.
Proof.
  intros Hsame. pose proof (same_filesystem_lstat fs fs' p Hsame) as Hl.
  unfold stat.
  destruct (lstat fs p) as [e|[data|es|]], (lstat fs' p) as [e'|[data'|es'|]]; done.
Qed.

Lemma same_filesystem_exists fs fs' p :
  same_filesystem fs fs' = true → Path_exists fs' p = Path_exists fs p.
Proof.
  intros Hsame. pose proof (same_filesystem_stat fs fs' p Hsame) as Hs.
  unfold Path_exists. by destruct (stat fs p), (stat fs' p).
Qed.

Lemma same_filesystem_read_text fs fs' p :
  same_filesystem fs fs' = true → read_text fs' p = read_text fs p.
Proof.
  intros Hsame. pose proof (same_filesystem_stat fs fs' p Hsame) as Hs.
  unfold read_text.
  destruct (stat fs p) as [e|[data|es|]], (stat fs' p) as [e'|[data'|es'|]];
    try done; [by subst|].
  simpl in Hs. by apply String.eqb_eq in Hs as ->.
Qed.

Lemma same_filesystem_load fs fs' p :
  same_filesystem fs fs' = true →
  wallet_utils.load_keypair_from_json fs' p = wallet_utils.load_keypair_from_json fs p.
Proof.
  intros Hsame. unfold wallet_utils.load_keypair_from_json.
  by rewrite (same_filesystem_read_text fs fs').
Qed.

Lemma same_filesystem_glob fs fs' d :
  same_filesystem fs fs' = true → Path_glob fs' d ≡ₚ Path_glob fs d.
Proof.
  intros Hsame. pose proof (same_filesystem_stat fs fs' d Hsame) as Hs.
  unfold Path_glob.
  destruct (stat fs d) as [e|[data|es|]], (stat fs' d) as [e'|[data'|es'|]]; try done.
  apply fmap_Permutation. symmetry. by apply same_tree_select_from.
Qed.

Lemma same_filesystem_candidates fs fs' d :
  same_filesystem fs fs' = true → candidates fs' d = candidates fs d.
Proof. intros Hsame. by apply sorted_proper, same_filesystem_glob. Qed.

Lemma same_filesystem_entries fs fs' (l : list Path) :
  same_filesystem fs fs' = true → entry_of fs' <$> l = entry_of fs <$> l.
Proof.
  intros Hsame. induction l as [|p l IH]; [done|].
  rewrite !fmap_cons, IH. unfold entry_of. by rewrite (same_filesystem_load fs fs').
Qed.

Lemma same_filesystem_keypairs fs fs' (l : list Path) :
  same_filesystem fs fs' = true →
  omap (λ p, ok (wallet_utils.load_keypair_from_json fs' p)) l =
  omap (λ p, ok (wallet_utils.load_keypair_from_json fs p)) l ∧
  omap (failure_line fs') l = omap (failure_line fs) l.
Proof.
  intros Hsame.
  assert (∀ p, failure_line fs' p = failure_line fs p) as Hline.
  { intros p. unfold failure_line. by rewrite (same_filesystem_load fs fs'). }
  induction l as [|p l [IH1 IH2]]; [done|].
  cbn [omap list_omap].
  by rewrite (same_filesystem_load fs fs'), Hline, IH1, IH2.
Qed.

Lemma candidates_json_name fs d p :
  p ∈ candidates fs d → ∃ rel stem, p = d ++ rel ++ [stem +:+ ".json"].
Proof.
  unfold candidates. rewrite sorted_Permutation. unfold Path_glob.
  destruct (stat fs d) as [e|[data|es|]]; try by intros ?%elem_of_nil.
  intros (q & -> & Hq)%list_elem_of_fmap.
  apply select_from_sound in Hq as (rel & name & -> & [stem ->]%fnmatch_json_spec).
  by exists rel, stem.
Qed.

(** The glob goes down every directory: an entry at any depth below the
    base whose name ends in [.json] is a candidate. *)
Lemma candidates_at_any_depth fs d es rel stem c :
  stat fs d = inr (Dir es) →
  walk (Dir es) (rel ++ [stem +:+ ".json"]) = inr c →
  d ++ rel ++ [stem +:+ ".json"] ∈ candidates fs d.
Proof.
  intros Hstat Hwalk.
  unfold candidates. rewrite sorted_Permutation. unfold Path_glob. rewrite Hstat.
  apply list_elem_of_fmap. exists (rel ++ [stem +:+ ".json"]). split; [done|].
  apply (select_from_complete (Dir es) [] rel _ c); [done|].
  apply fnmatch_json_spec. by exists stem.
Qed.

(** C5.  The loops visit the [*.json] paths found recursively under the
    directory: an entry at any depth below it whose name ends in [.json]
    is visited.  They visit them in ascending order of [Path], which is
    the lexicographic order of the sequence of path components, each
    component compared as a string.  The order of the result does not
    depend on the order in which the operating system lists the
    directories: two file trees with the same contents give the same
    candidates in the same order and the same results from both scans. *)
Theorem scan_order_is_reproducible fs fs' d :
  same_filesystem fs fs' = true →
  (∀ es rel stem c,
     stat fs d = inr (Dir es) →
     walk (Dir es) (rel ++ [stem +:+ ".json"]) = inr c →
     d ++ rel ++ [stem +:+ ".json"] ∈ candidates fs d) ∧
  candidates fs d ≡ₚ Path_glob fs d ∧
  StronglySorted Path_le (candidates fs d) ∧
  wallet_utils.list_public_keys_with_paths fs d = Ok (entry_of fs <$> candidates fs d) ∧
  (∃ stdout, wallet_utils.load_all_wallets fs d =
     Ok (omap (λ p, ok (wallet_utils.load_keypair_from_json fs p)) (candidates fs d),
         stdout)) ∧
  candidates fs' d = candidates fs d ∧
  wallet_utils.list_public_keys_with_paths fs' d =
    wallet_utils.list_public_keys_with_paths fs d ∧
  wallet_utils.load_all_wallets fs' d = wallet_utils.load_all_wallets fs d.
Proof.
  intros Hsame.
  pose proof (same_filesystem_candidates fs fs' d Hsame) as Hcand.
  destruct (same_filesystem_keypairs fs fs' (candidates fs d) Hsame) as [Hk Hout].
  rewrite !list_public_keys_with_paths_eq, !load_all_wallets_eq, Hcand.
  rewrite (same_filesystem_entries fs fs'), Hk, Hout by done.
  split; [intros es rel stem c; apply candidates_at_any_depth|].
  repeat split; eauto using sorted_Permutation, sorted_StronglySorted.
Qed.

(** The order on paths goes by components, not by the characters of the
    printed path: ["d/a/x.json"] comes before ["d/a-x.json"], although
    ["-"] is smaller than ["/"]. *)
Example sorted_by_components :
  sorted [["d"; "a-x.json"]; ["d"; "a"; "x.json"]] =
    [["d"; "a"; "x.json"]; ["d"; "a-x.json"]].
Proof. vm_compute. reflexivity. Qed.

(** C9.  The result entries of [list_public_keys_with_paths] are, one
    for one, the candidates, and [load_all_wallets] loads the same
    candidates and prints about no other path.  A path is a candidate
    only if it lies under the directory and its last component ends in
    [.json]; a path whose last component does not end in [.json] is never
    one, whatever the tree holds there; and every entry at any depth
    under the directory whose name ends in [.json] is one. *)
Theorem candidates_are_json_names fs d :
  ∃ results keypairs stdout,
    wallet_utils.list_public_keys_with_paths fs d = Ok results ∧
    wallet_utils.load_all_wallets fs d = Ok (keypairs, stdout) ∧
    results.*1 = Path_str <$> candidates fs d ∧
    keypairs = omap (λ p, ok (wallet_utils.load_keypair_from_json fs p))
                 (candidates fs d) ∧
    stdout = omap (failure_line fs) (candidates fs d) ∧
    (∀ p, p ∈ candidates fs d →
       ∃ rel stem, p = d ++ rel ++ [stem +:+ ".json"]) ∧
    (∀ rel name, (∀ stem, name ≠ stem +:+ ".json") →
       d ++ rel ++ [name] ∉ candidates fs d) ∧
    (∀ es rel stem c,
       stat fs d = inr (Dir es) →
       walk (Dir es) (rel ++ [stem +:+ ".json"]) = inr c →
       d ++ rel ++ [stem +:+ ".json"] ∈ candidates fs d).
Proof.
  eexists _, _, _.
  split; [apply list_public_keys_with_paths_eq|].
  split; [apply load_all_wallets_eq|].
  split.
  { rewrite <- list_fmap_compose. apply list_fmap_ext. intros i p _. apply entry_of_fst. }
  split; [done|]. split; [done|].
  split; [apply candidates_json_name|].
  split.
  - intros rel name Hname (rel' & stem & Heq)%candidates_json_name.
    apply app_inv_head, app_inj_tail in Heq as [_ ->]. by apply (Hname stem).
  - intros es rel stem c. apply candidates_at_any_depth.
Qed.
End Enumeration.

(** ** Keypairs against entries, and equal public keys *)


Lemma StronglySorted_lookup_le {A} (R : relation A) l i j x y :
  StronglySorted R l → l !! i = Some x → l !! j = Some y → i < j → R x y.
Proof.
  intros Hs. revert i j. induction Hs as [|z l Hs IH Hall]; intros i j Hi Hj Hlt.
  - by rewrite lookup_nil in Hi.
  - destruct j as [|j]; [lia|]. destruct i as [|i]; simpl in *.
    + injection Hi as <-. rewrite Forall_forall in Hall.
      by eapply Hall, list_elem_of_lookup_2.
    + apply (IH i j); [done..|lia].
Qed.

Section Duplicates.
Context `{Platform}.

Lemma keypairs_match_entries fs (l : list Path) :
  (∀ kp, is_error_marker (pubkey_str kp) = false) →
  Forall2 (λ kp pe,
      wallet_utils.load_keypair_from_json fs pe.1 = Ok kp ∧
      pe.2 = (Path_str pe.1, pubkey_str kp))
    (omap (λ p, ok (wallet_utils.load_keypair_from_json fs p)) l)
    (filter (λ pe, is_error_marker pe.2.2 = false) (zip l (entry_of fs <$> l))).
Proof.
  intros Hb58. induction l as [|p l IH]; [constructor|].
  rewrite fmap_cons. cbn [zip zip_with omap list_omap].
  destruct (wallet_utils.load_keypair_from_json fs p) as [kp|exc] eqn:Hl.
  - assert (entry_of fs p = (Path_str p, pubkey_str kp)) as Hentry
      by (unfold entry_of; by rewrite Hl).
    rewrite filter_cons_True by (by rewrite Hentry; simpl).
    constructor; [done|apply IH].
  - assert (entry_of fs p = (Path_str p, error_marker exc)) as Hentry
      by (unfold entry_of; by rewrite Hl).
    rewrite filter_cons_False; [apply IH|].
    rewrite Hentry. simpl. by rewrite is_error_marker_error_marker.
Qed.

Lemma zip_entries_marker fs (l : list Path) :
  (∀ kp, is_error_marker (pubkey_str kp) = false) →
  Forall (λ pe, is_error_marker pe.2.2 = false ↔ well_formed fs pe.1)
    (zip l (entry_of fs <$> l)).
Proof.
  intros Hb58. induction l as [|p l IH]; [constructor|].
  rewrite fmap_cons. constructor; [|done]. by apply entry_marker_iff.
Qed.

(** C8.  Both scans visit the same candidates.  The keypairs that
    [load_all_wallets] returns are, one for one and in order, the
    keypairs of the candidates whose entry in
    [list_public_keys_with_paths] is not an error marker, each entry
    showing the public key of its keypair; and an entry is not an error
    marker exactly when its file is well-formed.  (Public keys are
    printed in base 58, so none looks like a marker.) *)
Theorem load_all_wallets_agrees fs d :
  (∀ kp, is_error_marker (pubkey_str kp) = false) →
  ∃ results keypairs stdout,
    wallet_utils.list_public_keys_with_paths fs d = Ok results ∧
    wallet_utils.load_all_wallets fs d = Ok (keypairs, stdout) ∧
    length results = length (candidates fs d) ∧
    Forall2 (λ kp pe,
        wallet_utils.load_keypair_from_json fs pe.1 = Ok kp ∧
        pe.2 = (Path_str pe.1, pubkey_str kp))
      keypairs
      (filter (λ pe, is_error_marker pe.2.2 = false) (zip (candidates fs d) results)) ∧
    Forall (λ pe, is_error_marker pe.2.2 = false ↔ well_formed fs pe.1)
      (zip (candidates fs d) results).
Proof.
  intros Hb58. eexists _, _, _.
  split; [apply list_public_keys_with_paths_eq|].
  split; [apply load_all_wallets_eq|].
  split; [by rewrite length_fmap|].
  split; [by apply keypairs_match_entries|by apply zip_entries_marker].
Qed.

(** C7.  Two different candidate files that load to the same public key
    both keep their entry in the result of
    [list_public_keys_with_paths], at different positions that follow
    the order of the two paths.  The lookup [get], read on that result,
    returns the entry of the earliest candidate in scan order that loads
    to the public key: it is at or before both entries and no entry
    before it carries the key, so no later file replaces it. *)
Theorem duplicate_public_keys_first_wins fs d p1 p2 kp1 kp2 s :
  p1 ∈ Path_glob fs d →
  p2 ∈ Path_glob fs d →
  p1 ≠ p2 →
  wallet_utils.load_keypair_from_json fs p1 = Ok kp1 →
  wallet_utils.load_keypair_from_json fs p2 = Ok kp2 →
  pubkey_str kp1 = s →
  pubkey_str kp2 = s →
  is_error_marker s = false →
  ∃ results i j,
    wallet_utils.list_public_keys_with_paths fs d = Ok results ∧
    results !! i = Some (Path_str p1, s) ∧
    results !! j = Some (Path_str p2, s) ∧
    i ≠ j ∧
    (i < j ↔ Path_lt p1 p2 = true) ∧
    ∃ k p kp,
      get results s = Some (Path_str p, s) ∧
      results !! k = Some (Path_str p, s) ∧
      candidates fs d !! k = Some p ∧
      wallet_utils.load_keypair_from_json fs p = Ok kp ∧
      pubkey_str kp = s ∧
      (k ≤ i)%nat ∧ (k ≤ j)%nat ∧
      ∀ k' e, k' < k → results !! k' = Some e → e.2 ≠ s.
Proof.
  intros Hin1 Hin2 Hne Hl1 Hl2 Hs1 Hs2 Hs.
  assert (p1 ∈ candidates fs d) as [i Hi]%list_elem_of_lookup
    by (unfold candidates; by rewrite sorted_Permutation).
  assert (p2 ∈ candidates fs d) as [j Hj]%list_elem_of_lookup
    by (unfold candidates; by rewrite sorted_Permutation).
  set (results := entry_of fs <$> candidates fs d).
  assert (results !! i = Some (Path_str p1, s)) as Hri.
  { unfold results. rewrite list_lookup_fmap, Hi. simpl. unfold entry_of.
    by rewrite Hl1, Hs1. }
  assert (results !! j = Some (Path_str p2, s)) as Hrj.
  { unfold results. rewrite list_lookup_fmap, Hj. simpl. unfold entry_of.
    by rewrite Hl2, Hs2. }
  assert (i ≠ j) as Hij by (intros ->; congruence).
  exists results, i, j.
  split; [apply list_public_keys_with_paths_eq|].
  do 3 (split; [done|]).
  split.
  { pose proof (sorted_StronglySorted (Path_glob fs d)) as Hsorted. split.
    - intros Hlt.
      pose proof (StronglySorted_lookup_le _ _ _ _ _ _ Hsorted Hi Hj Hlt) as Hle.
      unfold Path_le, Path_lt in *.
      destruct (parts_lt p1 p2) eqn:H12; [done|].
      by destruct Hne; apply parts_lt_trichotomy.
    - intros H12. destruct (decide (i < j)) as [|Hge]; [done|].
      assert (j < i) as Hlt by lia.
      pose proof (StronglySorted_lookup_le _ _ _ _ _ _ Hsorted Hj Hi Hlt) as Hle.
      unfold Path_le in Hle. congruence. }
  destruct (list_find (λ e, is_error_marker e.2 = false ∧ e.2 = s) results)
    as [[k e]|] eqn:Hfind.
  2:{ apply list_find_None in Hfind. rewrite Forall_forall in Hfind.
      destruct (Hfind (Path_str p1, s)); [by eapply list_elem_of_lookup_2|done]. }
  apply list_find_Some in Hfind as (Hk & [Hem Hes] & Hfirst).
  assert (∃ p, candidates fs d !! k = Some p ∧ e = entry_of fs p) as (p & Hp & ->).
  { unfold results in Hk. rewrite list_lookup_fmap in Hk.
    destruct (candidates fs d !! k) as [p|]; [|done]. exists p.
    split; [done|]. by injection Hk. }
  assert (∃ kp, wallet_utils.load_keypair_from_json fs p = Ok kp ∧
                pubkey_str kp = s ∧ entry_of fs p = (Path_str p, s))
    as (kp & Hlp & Hkp & Hep).
  { unfold entry_of in *.
    destruct (wallet_utils.load_keypair_from_json fs p) as [kp|exc]; simpl in *.
    - exists kp. by rewrite Hes.
    - by rewrite is_error_marker_error_marker in Hem. }
  exists k, p, kp. unfold get.
  assert (list_find (λ e, is_error_marker e.2 = false ∧ e.2 = s) results =
          Some (k, entry_of fs p)) as ->.
  { apply list_find_Some. done. }
  rewrite Hep in *. simpl.
  do 5 (split; [done|]).
  assert (∀ m, results !! m = Some (Path_str p1, s) ∨
               results !! m = Some (Path_str p2, s) → (k ≤ m)%nat) as Hmin.
  { intros m Hm. destruct (decide (k ≤ m)%nat) as [|Hgt]; [done|].
    assert (m < k) as Hlt by lia.
    destruct Hm as [Hm|Hm]; by destruct (Hfirst _ _ Hm Hlt). }
  split; [by apply Hmin; left|]. split; [by apply Hmin; right|].
  intros k' e Hlt He Hes'. apply (Hfirst _ _ He Hlt). by rewrite Hes'.
Qed.
End Duplicates.

(** ** The macOS module against the portable one *)

Section MacOS.
Context `{Platform}.

Lemma expanduser_no_tilde p : tilde_head p = false → expanduser p = Ok p.
Proof.
  unfold tilde_head, expanduser. destruct p as [|p0 rest]; [done|].
  by intros ->.
Qed.

Lemma mac_load_keypair_eq fs p :
  tilde_head p = false →
  Path_exists fs p = true →
  wallet_utilsmac.load_keypair_from_json fs p = wallet_utils.load_keypair_from_json fs p.
Proof.
  intros Htilde Hex. unfold wallet_utilsmac.load_keypair_from_json.
  rewrite expanduser_no_tilde by done. simpl. by rewrite Hex.
Qed.

Lemma mac_list_public_keys_body_eq fs results p :
  tilde_head p = false →
  Path_exists fs p = true →
  wallet_utilsmac.list_public_keys_body fs results p =
  wallet_utils.list_public_keys_body fs results p.
Proof.
  intros Htilde Hex.
  unfold wallet_utilsmac.list_public_keys_body, wallet_utils.list_public_keys_body.
  by rewrite mac_load_keypair_eq.
Qed.

Lemma mac_list_public_keys_run fs (l : list Path) results :
  (∀ p, p ∈ l → tilde_head p = false ∧ Path_exists fs p = true) →
  for_in l (wallet_utilsmac.list_public_keys_body fs) results =
  for_in l (wallet_utils.list_public_keys_body fs) results.
Proof.
  revert results. induction l as [|p l IH]; intros results Hall; [done|].
  destruct (Hall p) as [Htilde Hex]; [left|].
  cbn [for_in]. rewrite mac_list_public_keys_body_eq by done.
  rewrite list_public_keys_body_ok. simpl.
  apply IH. intros q Hq. apply Hall. by right.
Qed.

(** Below a directory path with a first part, every path starts with
    that part. *)
Lemma glob_tilde_head fs d p :
  d ≠ [] → tilde_head d = false → p ∈ Path_glob fs d → tilde_head p = false.
Proof.
  intros Hd Htilde. unfold Path_glob.
  destruct (stat fs d) as [e|[data|es|]]; try by intros ?%elem_of_nil.
  intros (rel & -> & _)%list_elem_of_fmap. unfold child.
  destruct d as [|d0 d]; done.
Qed.

(** C10, as amended.  When [expanduser] leaves the directory path and
    every candidate path alone (none is relative with a first part that
    starts with a tilde) and every candidate exists (none is a dangling
    link), [list_public_keys_with_paths] of [wallet_utilsmac.py] returns
    what that of [wallet_utils.py] returns. *)
Theorem mac_list_public_keys_agrees fs d :
  tilde_head d = false →
  (∀ p, p ∈ Path_glob fs d → tilde_head p = false ∧ Path_exists fs p = true) →
  wallet_utilsmac.list_public_keys_with_paths fs d =
  wallet_utils.list_public_keys_with_paths fs d.
Proof.
  intros Htilde Hall.
  unfold wallet_utilsmac.list_public_keys_with_paths,
         wallet_utils.list_public_keys_with_paths.
  rewrite expanduser_no_tilde by done. simpl.
  destruct (Path_exists fs d); simpl; [|done].
  apply mac_list_public_keys_run. intros p Hp. apply Hall.
  by rewrite sorted_Permutation in Hp.
Qed.
End MacOS.

(** ** The three-file directory *)

Lemma parts_lt_app_head (d x y : list string) : parts_lt (d ++ x) (d ++ y) = parts_lt x y.
Proof. induction d as [|c d IH]; simpl; [done|]. by rewrite string_compare_refl. Qed.

Lemma sorted_of_sorted (l l' : list Path) :
  l' ≡ₚ l → StronglySorted Path_le l → sorted l' = l.
Proof.
  intros Hperm Hs. apply (StronglySorted_unique Path_le); [|done|].
  - apply sorted_StronglySorted.
  - by rewrite sorted_Permutation.
Qed.

Lemma abc_sorted (d : Path) :
  StronglySorted Path_le [d ++ ["a.json"]; d ++ ["b.json"]; d ++ ["c.json"]].
Proof.
  repeat constructor; unfold Path_le, Path_lt; by rewrite parts_lt_app_head.
Qed.

Section Scenario.
Context `{Platform}.

(** C2, on the code.  The directory holds exactly [a.json], [b.json]
    and [c.json]; [a.json] parses to 64 byte values, [b.json] to the
    string ["not an array"] and [c.json] to 32 byte values.
    [Keypair.from_bytes] of solders takes 64 bytes and raises on any
    other length.  Then [list_public_keys_with_paths] returns three
    entries in the order a, b, c; the entry of [b.json] is the marker of
    the format error, and the entry of [c.json] is an error marker too:
    the 32 bytes pass the length check of [load_keypair_from_json] and
    are refused by [Keypair.from_bytes]. *)
Theorem three_files_seed_is_rejected fs d ta tb tc ia ic A C :
  Path_exists fs d = true →
  Path_glob fs d ≡ₚ [d ++ ["a.json"]; d ++ ["b.json"]; d ++ ["c.json"]] →
  read_text fs (d ++ ["a.json"]) = Ok ta →
  json_loads ta = Ok (JList ia) →
  bytes ia = Ok A →
  length A = 64 →
  read_text fs (d ++ ["b.json"]) = Ok tb →
  json_loads tb = Ok (JStr "not an array") →
  read_text fs (d ++ ["c.json"]) = Ok tc →
  json_loads tc = Ok (JList ic) →
  bytes ic = Ok C →
  length C = 32 →
  (∀ bs, length bs ≠ 64 → is_ok (Keypair_from_bytes bs) = false) →
  ∃ exc,
    Keypair_from_bytes C = Raise exc ∧
    is_error_marker (error_marker exc) = true ∧
    wallet_utils.list_public_keys_with_paths fs d =
      Ok [ (Path_str (d ++ ["a.json"]),
            match Keypair_from_bytes A with
            | Ok kp => pubkey_str kp
            | Raise e => error_marker e
            end);
           (Path_str (d ++ ["b.json"]),
            "<error: Invalid key file format (expected array): " +:+
            Path_str (d ++ ["b.json"]) +:+ ">");
           (Path_str (d ++ ["c.json"]), error_marker exc) ].
Proof.
  intros Hex Hglob Hta Hia HA HlenA Htb Hib Htc Hic HC HlenC H64.
  destruct (Keypair_from_bytes C) as [kp|exc] eqn:HkC.
  { specialize (H64 C). rewrite HkC, HlenC in H64. by discriminate H64. }
  exists exc. split; [done|]. split; [done|].
  rewrite list_public_keys_with_paths_eq. unfold candidates.
  rewrite (sorted_of_sorted _ _ Hglob (abc_sorted d)).
  cbn [fmap list_fmap]. unfold entry_of, wallet_utils.load_keypair_from_json.
  rewrite Hta, Htb, Htc; simpl. rewrite Hia, Hib, Hic; simpl.
  rewrite HA, HC; simpl. rewrite HlenA, HlenC; simpl. rewrite HkC.
  by destruct (Keypair_from_bytes A).
Qed.

(** With a key library that did take the 32 bytes, the same run would
    pair [a.json] and [c.json] with public keys. *)
Lemma three_files_if_seed_were_accepted fs d ta tb tc ia ic A C kpa kpc :
  Path_exists fs d = true →
  Path_glob fs d ≡ₚ [d ++ ["a.json"]; d ++ ["b.json"]; d ++ ["c.json"]] →
  read_text fs (d ++ ["a.json"]) = Ok ta →
  json_loads ta = Ok (JList ia) →
  bytes ia = Ok A →
  length A = 64 →
  read_text fs (d ++ ["b.json"]) = Ok tb →
  json_loads tb = Ok (JStr "not an array") →
  read_text fs (d ++ ["c.json"]) = Ok tc →
  json_loads tc = Ok (JList ic) →
  bytes ic = Ok C →
  length C = 32 →
  Keypair_from_bytes A = Ok kpa →
  Keypair_from_bytes C = Ok kpc →
  wallet_utils.list_public_keys_with_paths fs d =
    Ok [ (Path_str (d ++ ["a.json"]), pubkey_str kpa);
         (Path_str (d ++ ["b.json"]),
          "<error: Invalid key file format (expected array): " +:+
          Path_str (d ++ ["b.json"]) +:+ ">");
         (Path_str (d ++ ["c.json"]), pubkey_str kpc) ].
Proof.
  intros Hex Hglob Hta Hia HA HlenA Htb Hib Htc Hic HC HlenC HkA HkC.
  rewrite list_public_keys_with_paths_eq. unfold candidates.
  rewrite (sorted_of_sorted _ _ Hglob (abc_sorted d)).
  cbn [fmap list_fmap]. unfold entry_of, wallet_utils.load_keypair_from_json.
  rewrite Hta, Htb, Htc; simpl. rewrite Hia, Hib, Hic; simpl.
  rewrite HA, HC; simpl. rewrite HlenA, HlenC; simpl. by rewrite HkA, HkC.
Qed.
End Scenario.



(** ** The concrete platform prints no marker *)

Lemma no_angle_not_marker s : no_angle s → is_error_marker s = false.
Proof.
  destruct s as [|c s]; [done|]. simpl. intros Hc.
  unfold is_error_marker.
  change (String.prefix "<error:" (String c s))
    with (if ascii_dec "<" c then String.prefix "error:" s else false).
  by destruct (ascii_dec "<" c) as [<-|].
Qed.

Lemma b58_char_no_angle d : Reference.b58_char d ≠ "<"%char.
Proof.
  unfold Reference.b58_char.
  destruct (nth_in_or_default (N.to_nat d) Reference.b58_alphabet "1"%char)
    as [Hin| ->]; [|done].
  apply list_elem_of_In in Hin. revert Hin.
  generalize (nth (N.to_nat d) Reference.b58_alphabet "1"%char).
  apply Forall_forall. unfold Reference.b58_alphabet. simpl.
  repeat constructor; discriminate.
Qed.

Lemma b58_digits_no_angle fuel n acc :
  no_angle acc → no_angle (Reference.b58_digits fuel n acc).
Proof.
  revert n acc. induction fuel as [|fuel IH]; intros n acc Hacc; simpl; [done|].
  destruct (n =? 0)%N; [done|]. apply IH. simpl. apply b58_char_no_angle.
Qed.

Lemma base58_not_marker bs : is_error_marker (Reference.base58 bs) = false.
Proof.
  apply no_angle_not_marker. unfold Reference.base58.
  destruct bs as [|b bs]; [done|].
  assert (no_angle (Reference.b58_digits (2 * length (b :: bs))
                      (Reference.bytes_to_N (b :: bs)) "")) as Hdigits
    by (by apply b58_digits_no_angle).
  destruct b; try exact Hdigits. simpl. discriminate.
Qed.

Lemma reference_pubkey_not_marker :
  ∀ kp : @Keypair Reference.platform,
    is_error_marker (@pubkey_str Reference.platform kp) = false.
Proof. intros kp. apply base58_not_marker. Qed.

(** * Runs on concrete file trees *)

Section Witnesses.
Import Examples.
Local Existing Instance Reference.platform.

Lemma list_public_keys_against_key_material_witness :
  (∀ bs, length bs ≠ 64 → is_ok (Keypair_from_bytes bs) = false) ∧
  key_material three_files ["wallets"; "a.json"] = Some (byte_range 1 64) ∧
  key_material three_files ["wallets"; "b.json"] = None ∧
  key_material three_files ["wallets"; "c.json"] = Some (byte_range 1 32) ∧
  length (Path_glob three_files ["wallets"]) = 3 ∧
  length (filter (λ p, is_Some (key_material three_files p))
            (Path_glob three_files ["wallets"])) = 2 ∧
  length (filter (λ p, length <$> key_material three_files p = Some 32)
            (Path_glob three_files ["wallets"])) = 1 ∧
  ∃ results,
    wallet_utils.list_public_keys_with_paths three_files ["wallets"] = Ok results ∧
    results =
      [ ("wallets/a.json", key64_pubkey);
        ("wallets/b.json",
         "<error: Invalid key file format (expected array): wallets/b.json>");
        ("wallets/c.json", "<error: expected a sequence of length 64 (got 32)>") ] ∧
    length results = 3 ∧
    (length (filter (λ e, is_error_marker e.2 = false) results) + 1 ≤ 2)%nat ∧
    (3 - 2 + 1 ≤ length (filter (λ e, is_error_marker e.2 = true) results))%nat.
Proof.
  assert (∀ bs, length bs ≠ 64 → is_ok (Keypair_from_bytes bs) = false) as H64.
  { intros bs Hlen. simpl. unfold Reference.from_bytes.
    by rewrite bool_decide_eq_false_2. }
  split; [exact H64|]. do 6 (split; [reflexivity|]).
  destruct (list_public_keys_against_key_material three_files ["wallets"] 3 2 1
              H64 eq_refl eq_refl eq_refl)
    as (results & Hrun & Hlen & _ & Hkeys & Hmarkers).
  exists results. split; [assumption|].
  split; [injection Hrun as <-; reflexivity|].
  repeat split; assumption.
Defined.

Lemma load_keypair_invalid_length_witness :
  read_text short_key ["wallets"; "k.json"] = Ok "[1,2,3]" ∧
  json_loads "[1,2,3]" = Ok (JList [JInt 1; JInt 2; JInt 3]) ∧
  bytes [JInt 1; JInt 2; JInt 3] = Ok [x01; x02; x03] ∧
  wallet_utils.load_keypair_from_json short_key ["wallets"; "k.json"] =
    Raise (Exn ValueError "Unexpected secret key length 3 in wallets/k.json").
Proof.
  split; [reflexivity|]. split; [reflexivity|]. split; [reflexivity|].
  apply (load_keypair_invalid_length short_key ["wallets"; "k.json"] "[1,2,3]"
           [JInt 1; JInt 2; JInt 3] [x01; x02; x03]);
    [reflexivity | reflexivity | reflexivity | discriminate | discriminate].
Defined.

Lemma missing_directory_is_empty_witness :
  Path_exists no_wallets ["wallets"] = false ∧
  wallet_utils.list_public_keys_with_paths no_wallets ["wallets"] = Ok [] ∧
  wallet_utils.load_all_wallets no_wallets ["wallets"] = Ok ([], []).
Proof.
  split; [reflexivity|].
  apply (missing_directory_is_empty no_wallets ["wallets"]). reflexivity.
Defined.

Lemma scan_order_is_reproducible_witness :
  same_filesystem nested nested_relisted = true ∧
  ["wallets"; "a"; "old"; "k.json"] ∈ candidates nested ["wallets"] ∧
  candidates nested ["wallets"] =
    [ ["wallets"; "a"; "old"; "k.json"]; ["wallets"; "a"; "x.json"];
      ["wallets"; "a-x.json"]; ["wallets"; "b.json"] ] ∧
  StronglySorted Path_le (candidates nested ["wallets"]) ∧
  wallet_utils.list_public_keys_with_paths nested ["wallets"] =
    Ok [ ("wallets/a/old/k.json", "9vJubGZgd2V7yWLUSa5x49RFvWCBS2G1kXxriYqYNMwY");
         ("wallets/a/x.json", key64_pubkey);
         ("wallets/a-x.json", "<error: expected a sequence of length 64 (got 32)>");
         ("wallets/b.json",
          "<error: Invalid key file format (expected array): wallets/b.json>") ] ∧
  candidates nested_relisted ["wallets"] = candidates nested ["wallets"] ∧
  wallet_utils.list_public_keys_with_paths nested_relisted ["wallets"] =
    wallet_utils.list_public_keys_with_paths nested ["wallets"] ∧
  wallet_utils.load_all_wallets nested_relisted ["wallets"] =
    wallet_utils.load_all_wallets nested ["wallets"].
Proof.
  split; [reflexivity|].
  destruct (scan_order_is_reproducible nested nested_relisted ["wallets"] eq_refl)
    as (Hdeep & _ & Hsorted & Hrun & _ & Hcand & Hlist & Hload).
  split; [exact (Hdeep _ ["a"; "old"] "k" _ eq_refl eq_refl)|].
  split; [reflexivity|]. split; [assumption|].
  split; [rewrite Hrun; reflexivity|].
  repeat split; assumption.
Defined.

Lemma candidates_are_json_names_witness :
  ∃ results keypairs stdout,
    wallet_utils.list_public_keys_with_paths nested ["wallets"] = Ok results ∧
    wallet_utils.load_all_wallets nested ["wallets"] = Ok (keypairs, stdout) ∧
    results.*1 =
      ["wallets/a/old/k.json"; "wallets/a/x.json"; "wallets/a-x.json"; "wallets/b.json"] ∧
    keypairs = [byte_range 100 64; byte_range 1 64] ∧
    stdout =
      ["Failed to load wallets/a-x.json: expected a sequence of length 64 (got 32)";
       "Failed to load wallets/b.json: Invalid key file format (expected array): wallets/b.json"] ∧
    ["wallets"; "a"; "old"; "k.json"] ∈ candidates nested ["wallets"] ∧
    (["wallets"; "notes.txt"] ∉ candidates nested ["wallets"]) ∧
    (["wallets"; "a"; "x.json.bak"] ∉ candidates nested ["wallets"]) ∧
    (["wallets"; "a"; "old"; "json"] ∉ candidates nested ["wallets"]).
Proof.
  destruct (candidates_are_json_names nested ["wallets"])
    as (results & keypairs & stdout & Hlist & Hload & Hpaths & Hkeys & Hout &
        _ & Hnot & Hdeep).
  assert (∀ name, fnmatch_json name = false → ∀ stem, name ≠ stem +:+ ".json") as Hno.
  { intros name Hfn stem Heq.
    assert (fnmatch_json name = true) as Hyes by (apply fnmatch_json_spec; by exists stem).
    congruence. }
  exists results, keypairs, stdout.
  split; [assumption|]. split; [assumption|].
  split; [rewrite Hpaths; reflexivity|].
  split; [rewrite Hkeys; reflexivity|].
  split; [rewrite Hout; reflexivity|].
  split; [exact (Hdeep _ ["a"; "old"] "k" _ eq_refl eq_refl)|].
  split; [exact (Hnot [] "notes.txt" (Hno "notes.txt" eq_refl))|].
  split; [exact (Hnot ["a"] "x.json.bak" (Hno "x.json.bak" eq_refl))|].
  exact (Hnot ["a"; "old"] "json" (Hno "json" eq_refl)).
Defined.

Lemma load_all_wallets_agrees_witness :
  (∀ kp, is_error_marker (pubkey_str kp) = false) ∧
  ∃ results keypairs stdout,
    wallet_utils.list_public_keys_with_paths three_files ["wallets"] = Ok results ∧
    wallet_utils.load_all_wallets three_files ["wallets"] = Ok (keypairs, stdout) ∧
    Forall2 (λ kp pe,
        wallet_utils.load_keypair_from_json three_files pe.1 = Ok kp ∧
        pe.2 = (Path_str pe.1, pubkey_str kp))
      keypairs
      (filter (λ pe, is_error_marker pe.2.2 = false)
         (zip (candidates three_files ["wallets"]) results)).
Proof.
  split; [exact reference_pubkey_not_marker|].
  destruct (load_all_wallets_agrees three_files ["wallets"] reference_pubkey_not_marker)
    as (results & keypairs & stdout & Hlist & Hload & _ & Hmatch & _).
  exists results, keypairs, stdout. repeat split; assumption.
Defined.
End Witnesses.

Section MoreWitnesses.
Import Examples.
Local Existing Instance Reference.platform.


Lemma duplicate_public_keys_first_wins_witness :
  ["wallets"; "x.json"] ∈ Path_glob twice ["wallets"] ∧
  ["wallets"; "y.json"] ∈ Path_glob twice ["wallets"] ∧
  wallet_utils.load_keypair_from_json twice ["wallets"; "x.json"] = Ok (byte_range 1 64) ∧
  wallet_utils.load_keypair_from_json twice ["wallets"; "y.json"] = Ok (byte_range 1 64) ∧
  @pubkey_str Reference.platform (byte_range 1 64) = key64_pubkey ∧
  ∃ results i j,
    wallet_utils.list_public_keys_with_paths twice ["wallets"] = Ok results ∧
    results !! i = Some ("wallets/x.json", key64_pubkey) ∧
    results !! j = Some ("wallets/y.json", key64_pubkey) ∧
    i < j ∧
    get results key64_pubkey = Some ("wallets/x.json", key64_pubkey).
Proof.
  assert (["wallets"; "x.json"] ∈ Path_glob twice ["wallets"]) as Hx
    by (compute_done).
  assert (["wallets"; "y.json"] ∈ Path_glob twice ["wallets"]) as Hy
    by (compute_done).
  do 2 (split; [assumption|]). do 3 (split; [reflexivity|]).
  destruct (@duplicate_public_keys_first_wins Reference.platform twice ["wallets"]
              ["wallets"; "x.json"] ["wallets"; "y.json"]
              (byte_range 1 64) (byte_range 1 64) key64_pubkey
              Hx Hy ltac:(discriminate) eq_refl eq_refl eq_refl eq_refl eq_refl)
    as (results & i & j & Hrun & Hi & Hj & _ & Hlt & k & p & kp & Hget & _).
  exists results, i, j.
  assert (results = [("wallets/m.json", "9vJubGZgd2V7yWLUSa5x49RFvWCBS2G1kXxriYqYNMwY");
                     ("wallets/x.json", key64_pubkey);
                     ("wallets/y.json", key64_pubkey)]) as Hres
    by (injection Hrun as <-; reflexivity).
  split; [assumption|]. split; [assumption|]. split; [assumption|].
  split; [by apply Hlt|]. by rewrite Hres.
Defined.

Lemma mac_list_public_keys_agrees_witness :
  tilde_head ["wallets"] = false ∧
  (∀ p, p ∈ Path_glob three_files ["wallets"] →
        tilde_head p = false ∧ Path_exists three_files p = true) ∧
  wallet_utilsmac.list_public_keys_with_paths three_files ["wallets"] =
  wallet_utils.list_public_keys_with_paths three_files ["wallets"].
Proof.
  assert (∀ p, p ∈ Path_glob three_files ["wallets"] →
               tilde_head p = false ∧ Path_exists three_files p = true) as Hall
    by (apply Forall_forall; compute_done).
  split; [reflexivity|]. split; [exact Hall|].
  apply (mac_list_public_keys_agrees three_files ["wallets"] eq_refl Hall).
Defined.

Lemma three_files_seed_is_rejected_witness :
  Path_exists three_files ["wallets"] = true ∧
  Path_glob three_files ["wallets"] ≡ₚ
    [["wallets"; "a.json"]; ["wallets"; "b.json"]; ["wallets"; "c.json"]] ∧
  read_text three_files ["wallets"; "a.json"] = Ok key64 ∧
  json_loads key64 = Ok (JList (int_values 1 64)) ∧
  bytes (int_values 1 64) = Ok (byte_range 1 64) ∧
  read_text three_files ["wallets"; "b.json"] = Ok not_an_array ∧
  json_loads not_an_array = Ok (JStr "not an array") ∧
  read_text three_files ["wallets"; "c.json"] = Ok seed32 ∧
  json_loads seed32 = Ok (JList (int_values 1 32)) ∧
  bytes (int_values 1 32) = Ok (byte_range 1 32) ∧
  (∀ bs, length bs ≠ 64 → is_ok (Keypair_from_bytes bs) = false) ∧
  wallet_utils.list_public_keys_with_paths three_files ["wallets"] =
    Ok [ ("wallets/a.json", key64_pubkey);
         ("wallets/b.json",
          "<error: Invalid key file format (expected array): wallets/b.json>");
         ("wallets/c.json", "<error: expected a sequence of length 64 (got 32)>") ].
Proof.
  assert (Path_glob three_files ["wallets"] ≡ₚ
            [["wallets"; "a.json"]; ["wallets"; "b.json"]; ["wallets"; "c.json"]])
    as Hglob by (compute_done).
  assert (∀ bs, length bs ≠ 64 → is_ok (Keypair_from_bytes bs) = false) as H64.
  { intros bs Hlen. simpl. unfold Reference.from_bytes.
    by rewrite bool_decide_eq_false_2. }
  split; [reflexivity|]. split; [exact Hglob|]. do 8 (split; [reflexivity|]).
  split; [exact H64|].
  destruct (@three_files_seed_is_rejected Reference.platform three_files ["wallets"]
              key64 not_an_array seed32 (int_values 1 64) (int_values 1 32)
              (byte_range 1 64) (byte_range 1 32)
              eq_refl Hglob eq_refl eq_refl eq_refl eq_refl eq_refl eq_refl
              eq_refl eq_refl eq_refl eq_refl H64)
    as (exc & Hexc & _ & Hrun).
  rewrite Hrun. injection Hexc as <-. reflexivity.
Defined.

(** C10 fails as stated.  The directory is [Path(".")], whose string
    form is ["."], and it holds the readable key file [~.json]: the
    glob yields the relative path [~.json], which the loader of
    [wallet_utils.py] reads and which the loader of [wallet_utilsmac.py]
    first passes through [expanduser]. *)
Lemma mac_differs_on_tilde_file :
  String.prefix "~" (Path_str []) = false ∧
  wallet_utils.list_public_keys_with_paths tilde_file [] =
    Ok [("~.json", key64_pubkey)] ∧
  wallet_utilsmac.list_public_keys_with_paths tilde_file [] =
    Ok [("~.json", "<error: Could not determine home directory.>")] ∧
  ¬ (∀ (P : Platform) fs d,
       String.prefix "~" (Path_str d) = false →
       @wallet_utilsmac.list_public_keys_with_paths P fs d =
       @wallet_utils.list_public_keys_with_paths P fs d).
Proof.
  split; [reflexivity|]. split; [reflexivity|]. split; [reflexivity|].
  intros Hclaim. specialize (Hclaim Reference.platform tilde_file [] eq_refl).
  vm_compute in Hclaim. discriminate Hclaim.
Qed.

(** They differ as well on a dangling link, in the text of the error. *)
Example mac_differs_on_dangling_link :
  wallet_utils.list_public_keys_with_paths dangling_link ["wallets"] =
    Ok [("wallets/x.json",
         "<error: [Errno 2] No such file or directory: 'wallets/x.json'>")] ∧
  wallet_utilsmac.list_public_keys_with_paths dangling_link ["wallets"] =
    Ok [("wallets/x.json", "<error: Wallet file not found: wallets/x.json>")].
Proof. split; reflexivity. Qed.
End MoreWitnesses.


(** * Further properties *)

(** ** What the loader makes of the array *)

Section Loader.
Context `{Platform}.

Lemma index_byte_json_of_byte b : index_byte (json_of_byte b) = Ok b.
Proof.
  unfold index_byte, json_of_byte.
  assert ((0 <=? Z.of_N (Byte.to_N b))%Z = true) as -> by (apply Z.leb_le; lia).
  by rewrite N2Z.id, Byte.of_to_N.
Qed.

Lemma bytes_json_of_byte bs : bytes (json_of_byte <$> bs) = Ok bs.
Proof.
  induction bs as [|b bs IH]; [done|].
  rewrite fmap_cons. cbn [bytes]. rewrite index_byte_json_of_byte. simpl.
  by rewrite IH.
Qed.

Lemma bytes_booleans bl : bytes (JBool <$> bl) = Ok (byte_of_bool <$> bl).
Proof.
  induction bl as [|b bl IH]; [done|].
  rewrite !fmap_cons. cbn [bytes]. rewrite IH. by destruct b.
Qed.

Lemma bytes_length items bs : bytes items = Ok bs → length bs = length items.
Proof.
  revert bs. induction items as [|j items IH]; intros bs; simpl.
  - by intros [= <-].
  - destruct (index_byte j) as [b|]; simpl; [|done].
    destruct (bytes items) as [bs'|]; simpl; [|done].
    intros [= <-]. simpl. f_equal. by apply IH.
Qed.

Lemma index_byte_is_byte_value j :
  is_byte_value j = true ↔ is_ok (index_byte j) = true.
Proof.
  destruct j as [|[]|z| | | |]; simpl; try done.
  destruct (0 <=? z)%Z eqn:H0; simpl; [|done].
  destruct (z <? 256)%Z eqn:H256.
  - apply Z.leb_le in H0. apply Z.ltb_lt in H256.
    destruct (Byte.of_N (Z.to_N z)) as [b|] eqn:Hb; [done|].
    apply Byte.of_N_None_iff in Hb. lia.
  - apply Z.leb_le in H0. apply Z.ltb_ge in H256.
    destruct (Byte.of_N (Z.to_N z)) as [b|] eqn:Hb; [|done].
    apply Byte.to_of_N in Hb. pose proof (Byte.to_N_bounded b). lia.
Qed.

Lemma index_byte_error j exc :
  index_byte j = Raise exc →
  exc = match j with
        | JInt _ | JBool _ => Exn ValueError "bytes must be in range(0, 256)"
        | JNull => Exn TypeError "'NoneType' object cannot be interpreted as an integer"
        | JFloat _ => Exn TypeError "'float' object cannot be interpreted as an integer"
        | JStr _ => Exn TypeError "'str' object cannot be interpreted as an integer"
        | JList _ => Exn TypeError "'list' object cannot be interpreted as an integer"
        | JDict _ => Exn TypeError "'dict' object cannot be interpreted as an integer"
        end.
Proof.
  destruct j as [|[]|z| | | |]; simpl; try by intros [= <-].
  destruct (if (0 <=? z)%Z then Byte.of_N (Z.to_N z) else None); [done|].
  by intros [= <-].
Qed.

Lemma bytes_first_offender good j rest bs0 exc :
  bytes good = Ok bs0 → index_byte j = Raise exc →
  bytes (good ++ j :: rest) = Raise exc.
Proof.
  revert bs0. induction good as [|g good IH]; intros bs0; simpl.
  - intros _ ->. done.
  - destruct (index_byte g) as [b|]; simpl; [|done].
    destruct (bytes good) as [bs'|] eqn:Hgood; simpl; [|done].
    intros _ Hj. by rewrite (IH bs').
Qed.

(** X1.  A key file that holds the JSON array of the byte values of a key
    is decoded to exactly those bytes: with 32 or 64 of them the result of
    the load is what [Keypair.from_bytes] makes of them, with any other
    number it is the length error. *)
Theorem key_array_round_trip fs p text bs :
  read_text fs p = Ok text →
  json_loads text = Ok (JList (json_of_byte <$> bs)) →
  wallet_utils.load_keypair_from_json fs p =
    if bool_decide (length bs = 64 ∨ length bs = 32)
    then Keypair_from_bytes bs
    else Raise (Exn ValueError
                  ("Unexpected secret key length " +:+ pretty (length bs) +:+
                   " in " +:+ Path_str p)).
Proof.
  intros Htext Hraw. unfold wallet_utils.load_keypair_from_json.
  rewrite Htext; simpl. rewrite Hraw; simpl. rewrite bytes_json_of_byte; simpl.
  repeat case_bool_decide; simpl; try done; tauto.
Qed.

(** X2.  An array element that is not an integer in [0, 255] (a boolean
    counts as 1 or 0) stops the load at the first such element:
    [ValueError] "bytes must be in range(0, 256)" for an integer out of
    range, [TypeError] for any other JSON value, whatever the length of
    the array and without a call of the key library. *)
Theorem key_array_bad_element fs p text good j rest :
  read_text fs p = Ok text →
  json_loads text = Ok (JList (good ++ j :: rest)) →
  forallb is_byte_value good = true →
  is_byte_value j = false →
  wallet_utils.load_keypair_from_json fs p =
    Raise match j with
          | JInt _ | JBool _ => Exn ValueError "bytes must be in range(0, 256)"
          | JNull => Exn TypeError "'NoneType' object cannot be interpreted as an integer"
          | JFloat _ => Exn TypeError "'float' object cannot be interpreted as an integer"
          | JStr _ => Exn TypeError "'str' object cannot be interpreted as an integer"
          | JList _ => Exn TypeError "'list' object cannot be interpreted as an integer"
          | JDict _ => Exn TypeError "'dict' object cannot be interpreted as an integer"
          end.
Proof.
  intros Htext Hraw Hgood Hj. unfold wallet_utils.load_keypair_from_json.
  rewrite Htext; simpl. rewrite Hraw; simpl.
  assert (∃ bs0, bytes good = Ok bs0) as [bs0 Hbs0].
  { clear Hraw. induction good as [|g good IH]; [by exists []|].
    simpl in Hgood. apply andb_true_iff in Hgood as [Hg Hgood].
    destruct (IH Hgood) as [bs0 Hbs0]. apply index_byte_is_byte_value in Hg.
    simpl. destruct (index_byte g) as [b|]; [|done]. simpl. rewrite Hbs0. by eexists. }
  destruct (index_byte j) as [b|exc] eqn:Hij.
  { assert (is_byte_value j = true) by (apply index_byte_is_byte_value; by rewrite Hij).
    congruence. }
  rewrite (bytes_first_offender good j rest bs0 exc Hbs0 Hij). simpl.
  by rewrite (index_byte_error j exc Hij).
Qed.

(** X3.  JSON booleans pass for bytes: an array of 64 (or 32) booleans
    goes through the format and length checks and reaches
    [Keypair.from_bytes] as the bytes 1 and 0. *)
Theorem key_array_of_booleans fs p text bl :
  read_text fs p = Ok text →
  json_loads text = Ok (JList (JBool <$> bl)) →
  length bl = 64 ∨ length bl = 32 →
  wallet_utils.load_keypair_from_json fs p = Keypair_from_bytes (byte_of_bool <$> bl).
Proof.
  intros Htext Hraw Hlen. unfold wallet_utils.load_keypair_from_json.
  rewrite Htext; simpl. rewrite Hraw; simpl. rewrite bytes_booleans; simpl.
  rewrite length_fmap. destruct Hlen as [-> | ->]; done.
Qed.

(** X4.  With a key library whose constructor takes 64 bytes only, as
    [Keypair.from_bytes] of solders does, every keypair that
    [load_keypair_from_json] returns comes from an array of exactly 64
    elements: the 32-byte case of the length check never gives a
    keypair. *)
Theorem loaded_keypairs_have_64_bytes fs p kp :
  (∀ bs, length bs ≠ 64 → is_ok (Keypair_from_bytes bs) = false) →
  wallet_utils.load_keypair_from_json fs p = Ok kp →
  ∃ text items bs,
    read_text fs p = Ok text ∧
    json_loads text = Ok (JList items) ∧
    bytes items = Ok bs ∧
    length items = 64 ∧ length bs = 64 ∧
    Keypair_from_bytes bs = Ok kp.
Proof.
  intros H64 (text & items & bs & Htext & Hraw & Hbs & _ & Hkp)%load_ok_iff.
  exists text, items, bs.
  assert (length bs = 64) as Hlen.
  { destruct (decide (length bs = 64)) as [|Hne]; [done|].
    specialize (H64 bs Hne). by rewrite Hkp in H64. }
  repeat split; try done. by rewrite <- (bytes_length items bs).
Qed.
End Loader.

(** ** Two runs of the loader *)


(** ** Accounts of the scans *)

Lemma for_in_ext {A S} (l : list A) (f g : S → A → result S) s :
  (∀ s' x, x ∈ l → f s' x = g s' x) → for_in l f s = for_in l g s.
Proof.
  revert s. induction l as [|x l IH]; intros s Hfg; [done|].
  cbn [for_in]. rewrite (Hfg s x) by left.
  destruct (g s x) as [s'|]; simpl; [|done].
  apply IH. intros s'' y Hy. apply Hfg. by right.
Qed.

Section Accounts.
Context `{Platform}.

Lemma keypairs_and_lines fs (l : list Path) :
  length (omap (λ p, ok (wallet_utils.load_keypair_from_json fs p)) l) =
    length (filter (well_formed fs) l) ∧
  length (omap (λ p, ok (wallet_utils.load_keypair_from_json fs p)) l) +
    length (omap (failure_line fs) l) = length l ∧
  Forall2 (λ line p,
      ∃ exc, wallet_utils.load_keypair_from_json fs p = Raise exc ∧
             line = "Failed to load " +:+ Path_str p +:+ ": " +:+ exn_msg exc)
    (omap (failure_line fs) l) (filter (λ p, ¬ well_formed fs p) l).
Proof.
  induction l as [|p l (IH1 & IH2 & IH3)]; [by repeat split; constructor|].
  cbn [omap list_omap].
  pose proof (well_formed_iff fs p) as Hwf.
  destruct (wallet_utils.load_keypair_from_json fs p) as [kp|exc] eqn:Hl.
  - assert (failure_line fs p = None) as -> by (unfold failure_line; by rewrite Hl).
    assert (well_formed fs p) as Hy by (by apply Hwf).
    rewrite filter_cons_True, filter_cons_False by tauto.
    simpl. repeat split; [lia|lia|done].
  - assert (failure_line fs p =
            Some ("Failed to load " +:+ Path_str p +:+ ": " +:+ exn_msg exc)) as ->
      by (unfold failure_line; by rewrite Hl).
    assert (¬ well_formed fs p) as Hn by (by intros ?%Hwf).
    rewrite filter_cons_False, filter_cons_True by done.
    simpl. repeat split; [lia|lia|]. constructor; [|done]. by exists exc.
Qed.

(** X5.  [load_all_wallets] accounts for every candidate: it returns one
    keypair per well-formed file and prints one line per other file, in
    the order of the scan, naming the file and giving the text of the
    exception. *)
Theorem load_all_wallets_accounting fs d :
  ∃ keypairs stdout,
    wallet_utils.load_all_wallets fs d = Ok (keypairs, stdout) ∧
    length keypairs = length (filter (well_formed fs) (Path_glob fs d)) ∧
    length keypairs + length stdout = length (Path_glob fs d) ∧
    Forall2 (λ line p,
        ∃ exc, wallet_utils.load_keypair_from_json fs p = Raise exc ∧
               line = "Failed to load " +:+ Path_str p +:+ ": " +:+ exn_msg exc)
      stdout (filter (λ p, ¬ well_formed fs p) (candidates fs d)).
Proof.
  eexists _, _. split; [apply load_all_wallets_eq|].
  destruct (keypairs_and_lines fs (candidates fs d)) as (H1 & H2 & H3).
  split; [|split; [|done]].
  - rewrite H1. unfold candidates. by rewrite sorted_Permutation.
  - rewrite H2. apply candidates_length.
Qed.

Lemma lines_match_markers fs (l : list Path) :
  (∀ kp, is_error_marker (pubkey_str kp) = false) →
  Forall2 (λ line e,
      ∃ msg, e.2 = "<error: " +:+ msg +:+ ">" ∧
             line = "Failed to load " +:+ e.1 +:+ ": " +:+ msg)
    (omap (failure_line fs) l)
    (filter (λ e, is_error_marker e.2 = true) (entry_of fs <$> l)).
Proof.
  intros Hb58. induction l as [|p l IH]; [constructor|].
  rewrite fmap_cons. cbn [omap list_omap].
  destruct (wallet_utils.load_keypair_from_json fs p) as [kp|exc] eqn:Hl.
  - assert (entry_of fs p = (Path_str p, pubkey_str kp)) as Hentry
      by (unfold entry_of; by rewrite Hl).
    assert (failure_line fs p = None) as -> by (unfold failure_line; by rewrite Hl).
    rewrite filter_cons_False; [done|]. rewrite Hentry. simpl. by rewrite Hb58.
  - assert (entry_of fs p = (Path_str p, error_marker exc)) as Hentry
      by (unfold entry_of; by rewrite Hl).
    assert (failure_line fs p =
            Some ("Failed to load " +:+ Path_str p +:+ ": " +:+ exn_msg exc)) as ->
      by (unfold failure_line; by rewrite Hl).
    rewrite filter_cons_True by (by rewrite Hentry).
    constructor; [|done]. rewrite Hentry. by exists (exn_msg exc).
Qed.

(** X6.  The two scans report the same failures: the lines that
    [load_all_wallets] prints are, one for one and in order, the entries
    of [list_public_keys_with_paths] that are error markers, with the same
    path and the same error text.  (Public keys are printed in base 58,
    so none looks like a marker.) *)
Theorem load_all_wallets_prints_the_markers fs d :
  (∀ kp, is_error_marker (pubkey_str kp) = false) →
  ∃ results keypairs stdout,
    wallet_utils.list_public_keys_with_paths fs d = Ok results ∧
    wallet_utils.load_all_wallets fs d = Ok (keypairs, stdout) ∧
    Forall2 (λ line e,
        ∃ msg, e.2 = "<error: " +:+ msg +:+ ">" ∧
               line = "Failed to load " +:+ e.1 +:+ ": " +:+ msg)
      stdout (filter (λ e, is_error_marker e.2 = true) results).
Proof.
  intros Hb58. eexists _, _, _.
  split; [apply list_public_keys_with_paths_eq|].
  split; [apply load_all_wallets_eq|]. by apply lines_match_markers.
Qed.

(** X7.  When the wallets path exists without being a directory (a key
    file given in place of its directory, say), both scans return the
    empty list and report nothing. *)
Theorem scan_of_a_file_is_empty fs d :
  Path_exists fs d = true →
  Path_is_dir fs d = false →
  wallet_utils.list_public_keys_with_paths fs d = Ok [] ∧
  wallet_utils.load_all_wallets fs d = Ok ([], []).
Proof.
  intros _ Hdir. rewrite list_public_keys_with_paths_eq, load_all_wallets_eq.
  assert (Path_glob fs d = []) as Hglob.
  { unfold Path_is_dir in Hdir. unfold Path_glob.
    by destruct (stat fs d) as [e|[data|es|]]. }
  unfold candidates. by rewrite Hglob.
Qed.
End Accounts.

(** ** No path twice *)

Lemma unique_names_Dir es :
  unique_names (Dir es) = true ↔
  NoDup es.*1 ∧ ∀ e, e ∈ es → unique_names e.2 = true.
Proof.
  simpl. rewrite andb_true_iff, bool_decide_eq_true, forallb_forall.
  split; intros [Hnd Hall]; (split; [done|]); intros e He; apply Hall;
    by apply list_elem_of_In.
Qed.

Lemma unique_names_walk ps : ∀ n m,
  unique_names n = true → walk n ps = inr m → unique_names m = true.
Proof.
  induction ps as [|name ps IH]; intros n m Hn; simpl; [by intros [= <-]|].
  destruct n as [|es|]; try done.
  destruct (lookup_entry name es) as [c|] eqn:Hl; [|done].
  apply IH. apply unique_names_Dir in Hn as [_ Hall].
  by apply (Hall (name, c)), lookup_entry_elem.
Qed.

Lemma select_from_below n here p :
  p ∈ select_from n here → ∃ rest, rest ≠ [] ∧ p = here ++ rest.
Proof.
  intros (rel & name & -> & _)%select_from_sound.
  exists (rel ++ [name]). split; [|done]. by destruct rel.
Qed.

Lemma wildcard_json_elem here es p :
  p ∈ wildcard_json here es → ∃ name, name ∈ es.*1 ∧ p = here ++ [name].
Proof.
  unfold wildcard_json. intros ([name c] & Hin & Hm)%list_elem_of_omap.
  simpl in Hm. destruct (fnmatch_json name); [|done]. injection Hm as <-.
  exists name. split; [|done]. apply list_elem_of_fmap. by exists (name, c).
Qed.

Lemma wildcard_json_NoDup here es : NoDup es.*1 → NoDup (wildcard_json here es).
Proof.
  induction es as [|[name c] es IH]; [constructor|].
  rewrite fmap_cons. intros [Hn Hnd]%NoDup_cons.
  unfold wildcard_json. cbn [omap list_omap fst].
  destruct (fnmatch_json name); [|by apply IH].
  apply NoDup_cons. split; [|by apply IH].
  intros (name' & Hin & Heq)%wildcard_json_elem.
  apply app_inv_head in Heq. by injection Heq as ->.
Qed.

Lemma select_from_NoDup n : ∀ here, unique_names n = true → NoDup (select_from n here).
Proof.
  induction n as [data|es IH|] using node_ind_nested; intros here Hn;
    [constructor| |constructor].
  apply unique_names_Dir in Hn as [Hnd Hall]. simpl.
  apply NoDup_app. split; [by apply wildcard_json_NoDup|]. split.
  - intros p (name & _ & ->)%wildcard_json_elem Hin.
    apply list_elem_of_In, in_flat_map in Hin as ([name' c] & _ & Hin).
    apply list_elem_of_In, select_from_below in Hin as (rest & Hrest & Heq).
    simpl in Heq. rewrite <- app_assoc in Heq. apply app_inv_head in Heq.
    injection Heq as -> Heq. by destruct rest.
  - revert Hnd Hall IH.
    induction es as [|[name c] es IHes]; [constructor|].
    rewrite fmap_cons. intros [Hn Hnd]%NoDup_cons Hall [Hc IH]%Forall_cons.
    cbn [flat_map]. apply NoDup_app. split; [|split].
    + apply Hc. by apply (Hall (name, c)); left.
    + intros p (rest & _ & ->)%select_from_below Hin.
      apply list_elem_of_In, in_flat_map in Hin as ([name' c'] & Hin' & Hin).
      apply list_elem_of_In, select_from_below in Hin as (rest' & _ & Heq).
      simpl in Heq. rewrite <- !app_assoc in Heq. apply app_inv_head in Heq.
      injection Heq as -> _. apply Hn, list_elem_of_fmap.
      exists (name', c'). split; [done|]. by apply list_elem_of_In.
    + apply IHes; [done| |done]. intros e He. apply Hall. by right.
Qed.

Lemma StronglySorted_strict (l : list Path) :
  StronglySorted Path_le l → NoDup l →
  StronglySorted (λ p q, Path_lt p q = true) l.
Proof.
  induction 1 as [|p l Hs IH Hall]; intros Hnd; [constructor|].
  apply NoDup_cons in Hnd as [Hp Hnd]. constructor; [auto|].
  rewrite Forall_forall in *. intros q Hq. specialize (Hall q Hq).
  unfold Path_le, Path_lt in *. destruct (parts_lt p q) eqn:Hpq; [done|].
  destruct Hp. by rewrite (parts_lt_trichotomy p q).
Qed.

(** X8.  In a file tree where no directory lists a name twice, the scans
    visit every candidate once: the candidates are pairwise different and
    strictly ascending in the order of paths. *)
Theorem candidates_visited_once fs d :
  unique_names (fs_root fs) = true →
  NoDup (candidates fs d) ∧
  StronglySorted (λ p q, Path_lt p q = true) (candidates fs d).
Proof.
  intros Hroot.
  assert (NoDup (Path_glob fs d)) as Hglob.
  { unfold Path_glob. destruct (stat fs d) as [e|[data|es|]] eqn:Hstat; try constructor.
    assert (Inj (=) (=) (child d)) as Hinj by (intros x y; apply app_inv_head).
    apply (NoDup_fmap_2 (child d)), select_from_NoDup.
    unfold stat in Hstat. destruct (lstat fs d) as [e|m] eqn:Hl; [done|].
    assert (m = Dir es) as -> by (destruct m; congruence).
    unfold lstat in Hl.
    destruct d as [|d0 d]; [by eapply unique_names_walk|].
    destruct (String.eqb d0 "/") eqn:Heq.
    - apply String.eqb_eq in Heq as ->. by eapply unique_names_walk.
    - assert (∀ (X : Type) (a b : X),
         match d0 :: d with "/" :: qs => a | _ => b end = b) as Hne.
      { intros X a b. apply String.eqb_neq in Heq.
        destruct d0 as [|[[] [] [] [] [] [] [] []] []]; try done. }
      rewrite Hne in Hl. by eapply unique_names_walk. }
  assert (NoDup (candidates fs d)) as Hnd
    by (unfold candidates; by rewrite sorted_Permutation).
  split; [done|]. apply StronglySorted_strict; [apply sorted_StronglySorted|done].
Qed.

(** ** The macOS module on its own *)

Section MacScan.
Context `{Platform}.

Lemma mac_list_public_keys_body_ok fs results p :
  wallet_utilsmac.list_public_keys_body fs results p = Ok (results ++ [mac_entry_of fs p]).
Proof.
  unfold wallet_utilsmac.list_public_keys_body, mac_entry_of.
  by destruct (wallet_utilsmac.load_keypair_from_json fs p).
Qed.

Lemma mac_list_public_keys_loop fs (l : list Path) results :
  for_in l (wallet_utilsmac.list_public_keys_body fs) results =
  Ok (results ++ (mac_entry_of fs <$> l)).
Proof.
  revert results. induction l as [|p l IH]; intros results; simpl.
  - by rewrite app_nil_r.
  - rewrite mac_list_public_keys_body_ok. simpl. rewrite IH. by rewrite <- app_assoc.
Qed.

Lemma mac_load_all_wallets_loop fs (l : list Path) keypairs stdout :
  for_in l (wallet_utilsmac.load_all_wallets_body fs) (keypairs, stdout) =
  Ok (keypairs ++ omap (λ p, ok (wallet_utilsmac.load_keypair_from_json fs p)) l,
      stdout ++ omap (mac_failure_line fs) l).
Proof.
  revert keypairs stdout. induction l as [|p l IH]; intros keypairs stdout; simpl.
  - by rewrite !app_nil_r.
  - unfold mac_failure_line.
    destruct (wallet_utilsmac.load_keypair_from_json fs p) as [kp|exc]; simpl;
      rewrite IH, <- app_assoc; done.
Qed.

Lemma mac_scans_eq fs d base :
  expanduser d = Ok base →
  wallet_utilsmac.list_public_keys_with_paths fs d =
    Ok (mac_entry_of fs <$> candidates fs base) ∧
  wallet_utilsmac.load_all_wallets fs d =
    Ok (omap (λ p, ok (wallet_utilsmac.load_keypair_from_json fs p)) (candidates fs base),
        omap (mac_failure_line fs) (candidates fs base)).
Proof.
  intros Hbase.
  unfold wallet_utilsmac.list_public_keys_with_paths, wallet_utilsmac.load_all_wallets,
    candidates.
  rewrite Hbase. simpl. destruct (Path_exists fs base) eqn:Hex; simpl.
  - by rewrite mac_list_public_keys_loop, mac_load_all_wallets_loop.
  - by rewrite Path_glob_not_exists.
Qed.

Lemma mac_entry_of_fst fs p : (mac_entry_of fs p).1 = Path_str p.
Proof. unfold mac_entry_of. by destruct (wallet_utilsmac.load_keypair_from_json fs p). Qed.

Lemma mac_keypairs_and_lines fs (l : list Path) :
  length (omap (λ p, ok (wallet_utilsmac.load_keypair_from_json fs p)) l) +
  length (omap (mac_failure_line fs) l) = length l.
Proof.
  induction l as [|p l IH]; [done|]. cbn [omap list_omap]. unfold mac_failure_line at 1.
  destruct (wallet_utilsmac.load_keypair_from_json fs p); simpl; lia.
Qed.

(** X9.  A wallets path [~user/...] whose home directory cannot be found
    makes both scans of [wallet_utilsmac.py] raise [RuntimeError]:
    [expanduser] on the directory runs outside the [try], so nothing is
    returned. *)
Theorem mac_scan_raises_without_home fs p0 rest :
  tilde_name p0 = true →
  gethomedir (String.substring 1 (String.length p0 - 1) p0) = None →
  wallet_utilsmac.list_public_keys_with_paths fs (p0 :: rest) =
    Raise (Exn RuntimeError "Could not determine home directory.") ∧
  wallet_utilsmac.load_all_wallets fs (p0 :: rest) =
    Raise (Exn RuntimeError "Could not determine home directory.").
Proof.
  intros Htilde Hhome.
  assert (expanduser (p0 :: rest) =
          Raise (Exn RuntimeError "Could not determine home directory.")) as Hexp.
  { unfold expanduser. rewrite Htilde, Hhome.
    assert (is_absolute (p0 :: rest) = false) as ->; [|done].
    destruct p0 as [|[[] [] [] [] [] [] [] []] []]; done. }
  unfold wallet_utilsmac.list_public_keys_with_paths, wallet_utilsmac.load_all_wallets.
  by rewrite Hexp.
Qed.

(** X10.  Once [expanduser] has given the directory, the scans of
    [wallet_utilsmac.py] do not raise, whatever the files hold:
    [list_public_keys_with_paths] returns one entry per candidate of the
    expanded directory, under the path as globbed, and [load_all_wallets]
    returns a keypair or prints a line for each. *)
Theorem mac_scan_partial_failure fs d base :
  expanduser d = Ok base →
  ∃ results keypairs stdout,
    wallet_utilsmac.list_public_keys_with_paths fs d = Ok results ∧
    wallet_utilsmac.load_all_wallets fs d = Ok (keypairs, stdout) ∧
    results.*1 = Path_str <$> candidates fs base ∧
    length results = length (Path_glob fs base) ∧
    length keypairs + length stdout = length (Path_glob fs base).
Proof.
  intros Hbase. destruct (mac_scans_eq fs d base Hbase) as [Hlist Hload].
  eexists _, _, _. split; [exact Hlist|]. split; [exact Hload|].
  split; [|split].
  - rewrite <- list_fmap_compose. apply list_fmap_ext. intros i p _. apply mac_entry_of_fst.
  - by rewrite length_fmap, candidates_length.
  - by rewrite mac_keypairs_and_lines, candidates_length.
Qed.

Lemma mac_load_ok fs p :
  tilde_head p = false →
  ok (wallet_utilsmac.load_keypair_from_json fs p) =
  ok (wallet_utils.load_keypair_from_json fs p).
Proof.
  intros Htilde. unfold wallet_utilsmac.load_keypair_from_json.
  rewrite expanduser_no_tilde by done. simpl.
  destruct (Path_exists fs p) eqn:Hex; simpl; [done|].
  unfold wallet_utils.load_keypair_from_json, read_text.
  unfold Path_exists in Hex. by destruct (stat fs p) as [[]|].
Qed.

Lemma mac_entry_close fs p :
  tilde_head p = false →
  (mac_entry_of fs p).1 = (entry_of fs p).1 ∧
  (mac_entry_of fs p = entry_of fs p ∨
   is_error_marker (mac_entry_of fs p).2 = true ∧
   is_error_marker (entry_of fs p).2 = true).
Proof.
  intros Htilde. split; [by rewrite mac_entry_of_fst, entry_of_fst|].
  pose proof (mac_load_ok fs p Htilde) as Hok. unfold mac_entry_of, entry_of.
  destruct (wallet_utilsmac.load_keypair_from_json fs p) as [kp|exc],
           (wallet_utils.load_keypair_from_json fs p) as [kp'|exc']; simpl in *;
    try done.
  - left. by injection Hok as ->.
  - right. by rewrite !is_error_marker_error_marker.
Qed.

Lemma mac_keypairs_eq fs (l : list Path) :
  (∀ p, p ∈ l → tilde_head p = false) →
  omap (λ p, ok (wallet_utilsmac.load_keypair_from_json fs p)) l =
  omap (λ p, ok (wallet_utils.load_keypair_from_json fs p)) l.
Proof.
  induction l as [|p l IH]; intros Hall; [done|]. cbn [omap list_omap].
  rewrite mac_load_ok by (apply Hall; left).
  rewrite IH; [done|]. intros q Hq. apply Hall. by right.
Qed.

Lemma mac_entries_close fs (l : list Path) :
  (∀ p, p ∈ l → tilde_head p = false) →
  Forall2 (λ e e',
      e.1 = e'.1 ∧
      (e = e' ∨ is_error_marker e.2 = true ∧ is_error_marker e'.2 = true))
    (mac_entry_of fs <$> l) (entry_of fs <$> l).
Proof.
  induction l as [|p l IH]; intros Hall; [constructor|].
  rewrite !fmap_cons. constructor.
  - apply mac_entry_close, Hall. left.
  - apply IH. intros q Hq. apply Hall. by right.
Qed.

Lemma mac_scan_same fs (l : list Path) :
  (∀ p, p ∈ l → wallet_utilsmac.load_keypair_from_json fs p =
                wallet_utils.load_keypair_from_json fs p) →
  mac_entry_of fs <$> l = entry_of fs <$> l ∧
  omap (λ p, ok (wallet_utilsmac.load_keypair_from_json fs p)) l =
    omap (λ p, ok (wallet_utils.load_keypair_from_json fs p)) l ∧
  omap (mac_failure_line fs) l = omap (failure_line fs) l.
Proof.
  induction l as [|p l IH]; intros Hload; [done|].
  destruct IH as (IH1 & IH2 & IH3); [intros q Hq; apply Hload; by right|].
  assert (mac_entry_of fs p = entry_of fs p) as Hentry
    by (unfold mac_entry_of, entry_of; by rewrite (Hload p) by left).
  assert (mac_failure_line fs p = failure_line fs p) as Hline
    by (unfold mac_failure_line, failure_line; by rewrite (Hload p) by left).
  rewrite !fmap_cons. cbn [omap list_omap].
  by rewrite (Hload p), Hentry, Hline, IH1, IH2, IH3 by left.
Qed.

(** X11.  For a directory path and candidates that [expanduser] leaves
    alone, the two modules agree on the files and on the keys, dangling
    links included: their results list the same paths in the same order,
    an entry of one is the entry of the other unless both are error
    markers, and [load_all_wallets] returns the same keypairs. *)
Theorem mac_agrees_on_keypairs fs d :
  tilde_head d = false →
  (∀ p, p ∈ Path_glob fs d → tilde_head p = false) →
  ∃ results results' keypairs stdout stdout',
    wallet_utilsmac.list_public_keys_with_paths fs d = Ok results ∧
    wallet_utils.list_public_keys_with_paths fs d = Ok results' ∧
    Forall2 (λ e e',
        e.1 = e'.1 ∧
        (e = e' ∨ is_error_marker e.2 = true ∧ is_error_marker e'.2 = true))
      results results' ∧
    wallet_utilsmac.load_all_wallets fs d = Ok (keypairs, stdout) ∧
    wallet_utils.load_all_wallets fs d = Ok (keypairs, stdout') ∧
    length stdout = length stdout'.
Proof.
  intros Htilde Hall.
  destruct (mac_scans_eq fs d d (expanduser_no_tilde d Htilde)) as [Hlist Hload].
  assert (∀ p, p ∈ candidates fs d → tilde_head p = false) as Hcand.
  { intros p Hp. apply Hall. unfold candidates in Hp. by rewrite sorted_Permutation in Hp. }
  pose proof (mac_keypairs_eq fs _ Hcand) as Hkeys.
  eexists _, _, _, _, _. split; [exact Hlist|].
  split; [apply list_public_keys_with_paths_eq|].
  split; [by apply mac_entries_close|].
  split; [exact Hload|]. split.
  - rewrite load_all_wallets_eq. by rewrite Hkeys.
  - pose proof (mac_keypairs_and_lines fs (candidates fs d)) as Hmac.
    destruct (keypairs_and_lines fs (candidates fs d)) as (_ & Hwu & _).
    rewrite Hkeys in Hmac. lia.
Qed.

(** X12.  The scans of [wallet_utilsmac.py] are those of
    [wallet_utils.py] on the expanded directory: when [expanduser] turns
    the path into [base], and every candidate under [base] exists and is
    left alone by [expanduser] in its turn, both functions return what
    their counterparts return on [base]. *)
Theorem mac_is_wallet_utils_after_expanduser fs d base :
  expanduser d = Ok base →
  (∀ p, p ∈ Path_glob fs base → tilde_head p = false ∧ Path_exists fs p = true) →
  wallet_utilsmac.list_public_keys_with_paths fs d =
    wallet_utils.list_public_keys_with_paths fs base ∧
  wallet_utilsmac.load_all_wallets fs d = wallet_utils.load_all_wallets fs base.
Proof.
  intros Hbase Hall.
  destruct (mac_scans_eq fs d base Hbase) as [-> ->].
  rewrite list_public_keys_with_paths_eq, load_all_wallets_eq.
  destruct (mac_scan_same fs (candidates fs base)) as (-> & -> & ->); [|done].
  intros p Hp. unfold candidates in Hp. rewrite sorted_Permutation in Hp.
  destruct (Hall p Hp). by apply mac_load_keypair_eq.
Qed.
End MacScan.

(** ** Making the wallets directory *)

Lemma lstat_abs_parts fs p : lstat fs p = walk (fs_root fs) (abs_parts fs p).
Proof.
  unfold lstat, abs_parts. destruct p as [|p0 ps]; [done|].
  destruct p0 as [|[[] [] [] [] [] [] [] []] []]; done.
Qed.

Lemma is_absolute_cons x (q : list string) : is_absolute (x :: q) = String.eqb x "/".
Proof. destruct x as [|[[] [] [] [] [] [] [] []] []]; done. Qed.

Lemma abs_parts_eq fs p :
  abs_parts fs p = if is_absolute p then tail p else fs_cwd fs ++ p.
Proof.
  destruct p as [|p0 ps]; [done|].
  unfold abs_parts. destruct p0 as [|[[] [] [] [] [] [] [] []] []]; done.
Qed.

Lemma abs_parts_snoc fs p :
  p ≠ [] → is_absolute p = false ∨ (2 ≤ length p)%nat →
  abs_parts fs p = abs_parts fs (removelast p) ++ [List.last p ""].
Proof.
  intros Hp Hcase. destruct (exists_last Hp) as (q & x & ->).
  rewrite removelast_last, last_last, !abs_parts_eq.
  destruct q as [|q0 q].
  - destruct Hcase as [Habs|Hlen]; [|simpl in Hlen; lia].
    change ([] ++ [x]) with [x] in *. rewrite Habs. simpl. by rewrite app_nil_r.
  - rewrite <- app_comm_cons, !is_absolute_cons.
    destruct (String.eqb q0 "/"); simpl; [done|]. by rewrite <- app_assoc.
Qed.

Lemma lookup_entry_app name es es' :
  lookup_entry name (es ++ es') =
  match lookup_entry name es with
  | Some c => Some c
  | None => lookup_entry name es'
  end.
Proof.
  induction es as [|[n c] es IH]; simpl; [done|]. by destruct (String.eqb n name).
Qed.

Lemma lookup_update_entry name name' f es :
  lookup_entry name' (update_entry name f es) =
  if String.eqb name name' then f <$> lookup_entry name' es else lookup_entry name' es.
Proof.
  induction es as [|[n c] es IH]; simpl; [by destruct (String.eqb name name')|].
  destruct (String.eqb n name) eqn:Hn; simpl.
  - apply String.eqb_eq in Hn as ->. by destruct (String.eqb name name').
  - destruct (String.eqb n name') eqn:Hn'; [|done].
    apply String.eqb_eq in Hn' as ->. apply String.eqb_neq in Hn.
    assert (String.eqb name name' = false) as -> by (apply String.eqb_neq; congruence).
    done.
Qed.

Lemma add_dir_cons name ps es :
  ps ≠ [] →
  add_dir (name :: ps) (Dir es) = Dir (update_entry name (add_dir ps) es).
Proof. by destruct ps. Qed.

(** The new directory is there and empty. *)
Lemma walk_add_dir_new pre : ∀ n es name,
  walk n pre = inr (Dir es) →
  lookup_entry name es = None →
  walk (add_dir (pre ++ [name]) n) (pre ++ [name]) = inr (Dir []).
Proof.
  induction pre as [|x pre IH]; intros n es name Hwalk Hfree; simpl in Hwalk.
  - injection Hwalk as ->. simpl.
    rewrite lookup_entry_app, Hfree. simpl. by rewrite String.eqb_refl.
  - destruct n as [|es0|]; try done.
    destruct (lookup_entry x es0) as [c|] eqn:Hx; [|done].
    rewrite <- app_comm_cons, add_dir_cons by (by destruct pre).
    cbn [walk]. rewrite lookup_update_entry, String.eqb_refl, Hx. simpl.
    by eapply IH.
Qed.

(** Files stay as they are when a directory is added. *)
Lemma walk_add_dir_file qs : ∀ comps n data,
  walk n qs = inr (File data) → walk (add_dir comps n) qs = inr (File data).
Proof.
  induction qs as [|q qs IH]; intros comps n data Hwalk; simpl in Hwalk.
  - injection Hwalk as ->. by destruct comps as [|? []].
  - destruct n as [|es|]; try done.
    destruct (lookup_entry q es) as [c|] eqn:Hq; [|done].
    destruct comps as [|name comps]; [by simpl; rewrite Hq|].
    destruct comps as [|name' comps].
    + simpl. by rewrite lookup_entry_app, Hq.
    + rewrite add_dir_cons by done. cbn [walk].
      rewrite lookup_update_entry, Hq.
      destruct (String.eqb name q); simpl; [|done].
      exact (IH (name' :: comps) c data Hwalk).
Qed.

Lemma stat_Dir_lstat fs p es : stat fs p = inr (Dir es) → lstat fs p = inr (Dir es).
Proof. unfold stat. destruct (lstat fs p) as [|[]]; congruence. Qed.

Lemma os_mkdir_inr fs p fs' :
  os_mkdir fs p = inr fs' →
  lstat fs p = inl ENOENT ∧ p ≠ [] ∧
  (∃ es, stat fs (removelast p) = inr (Dir es)) ∧
  fs' = {| fs_root := add_dir (abs_parts fs p) (fs_root fs); fs_cwd := fs_cwd fs |}.
Proof.
  unfold os_mkdir. destruct (lstat fs p) as [[]|] eqn:Hl; try done.
  destruct p as [|p0 ps]; [done|].
  destruct (stat fs (removelast (p0 :: ps))) as [|[|es|]] eqn:Hs; try done.
  intros [= <-]. eauto 10.
Qed.

Lemma lstat_ENOENT_not_root fs p :
  lstat fs p = inl ENOENT → p ≠ [] → is_absolute p = false ∨ (2 ≤ length p)%nat.
Proof.
  intros Hl Hp. destruct (is_absolute p) eqn:Habs; [right|by left].
  destruct p as [|p0 [|p1 ps]]; [done| |simpl; lia].
  unfold lstat in Hl. simpl in Habs.
  destruct p0 as [|[[] [] [] [] [] [] [] []] []]; done.
Qed.

Lemma lstat_in_parent fs p :
  p ≠ [] → is_absolute p = false ∨ (2 ≤ length p)%nat →
  lstat fs p =
  match lstat fs (removelast p) with
  | inr m => walk m [List.last p ""]
  | inl e => inl e
  end.
Proof.
  intros Hp Hcase. rewrite !lstat_abs_parts, (abs_parts_snoc fs p) by done.
  apply walk_app.
Qed.

(** What [os.mkdir] leaves: the new directory, empty, and every file as
    it was. *)
Lemma os_mkdir_creates fs p fs' :
  os_mkdir fs p = inr fs' →
  stat fs' p = inr (Dir []) ∧
  fs_cwd fs' = fs_cwd fs ∧
  ∀ q data, stat fs q = inr (File data) → stat fs' q = inr (File data).
Proof.
  intros (Hl & Hp & [es Hparent] & ->)%os_mkdir_inr.
  pose proof (lstat_ENOENT_not_root fs p Hl Hp) as Hcase.
  apply stat_Dir_lstat in Hparent.
  assert (lookup_entry (List.last p "") es = None) as Hfree.
  { rewrite (lstat_in_parent fs p), Hparent in Hl by done. simpl in Hl.
    by destruct (lookup_entry (List.last p "") es). }
  split; [|split; [done|]].
  - unfold stat. rewrite lstat_abs_parts. simpl.
    replace (abs_parts {| fs_root := add_dir (abs_parts fs p) (fs_root fs);
                          fs_cwd := fs_cwd fs |} p) with (abs_parts fs p) by done.
    rewrite (abs_parts_snoc fs p) by done.
    rewrite lstat_abs_parts in Hparent.
    by rewrite (walk_add_dir_new _ _ es).
  - intros q data Hq. unfold stat in *. rewrite lstat_abs_parts in *. simpl.
    replace (abs_parts {| fs_root := add_dir (abs_parts fs p) (fs_root fs);
                          fs_cwd := fs_cwd fs |} q) with (abs_parts fs q) by done.
    destruct (walk (fs_root fs) (abs_parts fs q)) as [|[data'| |]] eqn:Hw; try done.
    injection Hq as ->. by rewrite (walk_add_dir_file _ _ _ data).
Qed.

Lemma Path_mkdir_parents_unfold fuel fs p :
  Path_mkdir_parents fuel fs p =
  match os_mkdir fs p with
  | inr fs' => inr fs'
  | inl (FileNotFound, q) =>
      if decide (Path_parent p = p) then inl (FileNotFound, q)
      else
        match fuel with
        | O => inl (FileNotFound, q)
        | S fuel' =>
            match Path_mkdir_parents fuel' fs (Path_parent p) with
            | inl e => inl e
            | inr fs' =>
                match os_mkdir fs' p with
                | inr fs'' => inr fs''
                | inl (FileNotFound, q') => inl (FileNotFound, q')
                | inl e => if Path_is_dir fs' p then inr fs' else inl e
                end
            end
        end
  | inl e => if Path_is_dir fs p then inr fs else inl e
  end.
Proof. by destruct fuel. Qed.

Lemma Path_parent_proper p :
  Path_parent p ≠ p →
  p ≠ [] ∧ (is_absolute p = false ∨ (2 ≤ length p)%nat) ∧ Path_parent p = removelast p.
Proof.
  destruct p as [|x [|y p]]; [done| |].
  - unfold Path_parent. destruct (is_absolute [x]); [done|]. by auto.
  - intros _. split; [done|]. split; [right; simpl; lia|done].
Qed.

Lemma os_mkdir_in_empty_parent fs p :
  Path_parent p ≠ p →
  stat fs (Path_parent p) = inr (Dir []) →
  ∃ fs', os_mkdir fs p = inr fs'.
Proof.
  intros (Hp & Hcase & Hparent)%Path_parent_proper Hstat. rewrite Hparent in Hstat.
  unfold os_mkdir. rewrite (lstat_in_parent fs p), (stat_Dir_lstat _ _ _ Hstat) by done.
  simpl. rewrite Hstat. destruct p; [done|]. by eexists.
Qed.

(** The recursion of [mkdir] ends within [length p] turns: more fuel
    changes nothing. *)
Lemma Path_mkdir_parents_fuel fuel : ∀ fuel' fs p,
  (length p ≤ fuel)%nat → (length p ≤ fuel')%nat →
  Path_mkdir_parents fuel fs p = Path_mkdir_parents fuel' fs p.
Proof.
  induction fuel as [|fuel IH]; intros fuel' fs p Hfuel Hfuel';
    rewrite !(Path_mkdir_parents_unfold _ fs p);
    destruct (os_mkdir fs p) as [[[] q]|]; try done;
    destruct (decide (Path_parent p = p)) as [|Hparent]; try done;
    apply Path_parent_proper in Hparent as (Hp & _ & Hparent);
    destruct (exists_last Hp) as (p' & x & ->);
    rewrite length_app in Hfuel, Hfuel'; simpl in Hfuel, Hfuel'; [lia|].
  destruct fuel' as [|fuel']; [lia|].
  rewrite Hparent, removelast_last. by rewrite (IH fuel') by lia.
Qed.

(** What [mkdir(parents=True, exist_ok=True)] leaves when it returns: the
    path was a directory and nothing changed, or the path is a new, empty
    directory; every file is as it was. *)
Lemma Path_mkdir_parents_inr fuel : ∀ fs p fs',
  Path_mkdir_parents fuel fs p = inr fs' →
  (Path_is_dir fs p = true ∧ fs' = fs ∨ stat fs' p = inr (Dir [])) ∧
  ∀ q data, stat fs q = inr (File data) → stat fs' q = inr (File data).
Proof.
  induction fuel as [|fuel IH]; intros fs p fs'; rewrite Path_mkdir_parents_unfold;
    destruct (os_mkdir fs p) as [[[] q]|fs1] eqn:Hos;
    try (destruct (Path_is_dir fs p) eqn:Hdir; [|done]; intros [= <-]; by auto);
    try (intros [= <-]; destruct (os_mkdir_creates _ _ _ Hos) as (? & _ & ?); by auto);
    destruct (decide (Path_parent p = p)) as [|Hparent]; try done.
  destruct (Path_mkdir_parents fuel fs (Path_parent p)) as [|fs1] eqn:Hrec; [done|].
  destruct (IH _ _ _ Hrec) as [Hcase Hfiles].
  destruct (os_mkdir fs1 p) as [[cls q']|fs2] eqn:Hos2.
  - destruct Hcase as [[_ ->]|Hempty].
    + rewrite Hos in Hos2. by injection Hos2 as <- <-.
    + destruct (os_mkdir_in_empty_parent fs1 p Hparent Hempty) as [fs2 Hfs2].
      congruence.
  - intros [= <-]. destruct (os_mkdir_creates _ _ _ Hos2) as (Hnew & _ & Hfiles2).
    split; [by right|]. intros q0 data Hq0. by apply Hfiles2, Hfiles.
Qed.

(** ** The entry point *)

Section Main.
Context `{Platform}.

Lemma print_loop (entries : list (string * string)) stdout :
  foldl (λ stdout entry, stdout ++ [main.wallet_line entry]) stdout entries =
  stdout ++ (main.wallet_line <$> entries).
Proof.
  revert stdout. induction entries as [|e entries IH]; intros stdout; simpl.
  - by rewrite app_nil_r.
  - by rewrite IH, <- app_assoc.
Qed.

Lemma main_after_mkdir environ fs fs' :
  Path_mkdir fs (Path_of_string (wallets_dir_of environ)) = inr fs' →
  main.main environ fs =
    inr (fs', report (wallets_dir_of environ)
                (entry_of fs' <$> candidates fs' (Path_of_string (wallets_dir_of environ)))).
Proof.
  intros Hmk. unfold main.main. fold (wallets_dir_of environ). rewrite Hmk.
  rewrite list_public_keys_with_paths_eq.
  destruct (entry_of fs' <$> candidates fs' (Path_of_string (wallets_dir_of environ)))
    as [|e entries]; [done|].
  rewrite bool_decide_eq_false_2 by done. by rewrite print_loop.
Qed.

Lemma main_inr environ fs fs' stdout :
  main.main environ fs = inr (fs', stdout) →
  Path_mkdir fs (Path_of_string (wallets_dir_of environ)) = inr fs'.
Proof.
  destruct (Path_mkdir fs (Path_of_string (wallets_dir_of environ)))
    as [[cls q]|fs1] eqn:Hmk.
  - unfold main.main. fold (wallets_dir_of environ). by rewrite Hmk.
  - rewrite (main_after_mkdir _ _ _ Hmk). by intros [= <- _].
Qed.

Lemma Path_mkdir_of_directory fs p : Path_is_dir fs p = true → Path_mkdir fs p = inr fs.
Proof.
  intros Hdir. unfold Path_mkdir. rewrite Path_mkdir_parents_unfold.
  assert (os_mkdir fs p = inl (FileExists, p)) as ->; [|by rewrite Hdir].
  unfold Path_is_dir, stat in Hdir. unfold os_mkdir.
  by destruct (lstat fs p) as [|[]].
Qed.

(** X13.  Once the wallets directory is there, [main] prints one line per
    candidate key file, after the line "Discovered wallets:", each with
    the path and the public key or error marker of the file, in the order
    of the scan; with no candidate it prints the single "No wallets
    found" line, which quotes the directory as given. *)
Theorem main_reports_every_candidate environ fs fs' :
  Path_mkdir fs (Path_of_string (wallets_dir_of environ)) = inr fs' →
  ∃ entries,
    wallet_utils.list_public_keys_with_paths fs' (Path_of_string (wallets_dir_of environ)) =
      Ok entries ∧
    length entries = length (Path_glob fs' (Path_of_string (wallets_dir_of environ))) ∧
    main.main environ fs =
      inr (fs',
           if bool_decide (Path_glob fs' (Path_of_string (wallets_dir_of environ)) = [])
           then [main.no_wallets_message (wallets_dir_of environ)]
           else "Discovered wallets:" :: (main.wallet_line <$> entries)).
Proof.
  intros Hmk. eexists. split; [apply list_public_keys_with_paths_eq|].
  split; [by rewrite length_fmap, candidates_length|].
  rewrite (main_after_mkdir _ _ _ Hmk). f_equal. f_equal.
  pose proof (candidates_length fs' (Path_of_string (wallets_dir_of environ))) as Hlen.
  destruct (Path_glob fs' (Path_of_string (wallets_dir_of environ))) as [|p l];
    destruct (candidates fs' (Path_of_string (wallets_dir_of environ))) as [|p' l'];
    done.
Qed.

(** X14.  The only exception that leaves [main] is the [OSError] of
    [mkdir]: whatever the key files hold, no error of the scan gets
    out. *)
Theorem main_only_mkdir_raises environ fs u :
  main.main environ fs = inl u →
  ∃ cls p,
    u = OSError cls p ∧
    Path_mkdir fs (Path_of_string (wallets_dir_of environ)) = inl (cls, p).
Proof.
  destruct (Path_mkdir fs (Path_of_string (wallets_dir_of environ)))
    as [[cls q]|fs1] eqn:Hmk.
  - unfold main.main. fold (wallets_dir_of environ). rewrite Hmk.
    intros [= <-]. by exists cls, q.
  - by rewrite (main_after_mkdir _ _ _ Hmk).
Qed.

(** X15.  When the wallets directory exists, [main] leaves the file tree
    as it is and reports the result of [list_public_keys_with_paths] on
    it. *)
Theorem main_existing_directory environ fs :
  Path_is_dir fs (Path_of_string (wallets_dir_of environ)) = true →
  ∃ entries,
    wallet_utils.list_public_keys_with_paths fs (Path_of_string (wallets_dir_of environ)) =
      Ok entries ∧
    main.main environ fs = inr (fs, report (wallets_dir_of environ) entries).
Proof.
  intros Hdir. eexists. split; [apply list_public_keys_with_paths_eq|].
  by apply main_after_mkdir, Path_mkdir_of_directory.
Qed.

(** X16.  The wallets path has no [..] part and not the root [//], so
    that the file tree resolves it as the operating system does.  When
    it does not exist and [main] returns, it has made the directory,
    empty, and prints the "No wallets found" line alone. *)
Theorem main_new_directory environ fs fs' stdout :
  plain_parts (Path_of_string (wallets_dir_of environ)) = true →
  Path_exists fs (Path_of_string (wallets_dir_of environ)) = false →
  main.main environ fs = inr (fs', stdout) →
  stat fs' (Path_of_string (wallets_dir_of environ)) = inr (Dir []) ∧
  stdout = [main.no_wallets_message (wallets_dir_of environ)].
Proof.
  intros _ Hex Hmain. pose proof (main_inr _ _ _ _ Hmain) as Hmk.
  destruct (Path_mkdir_parents_inr _ _ _ _ Hmk) as [[[Hdir _]|Hnew] _].
  { unfold Path_is_dir in Hdir. unfold Path_exists in Hex.
    by destruct (stat fs (Path_of_string (wallets_dir_of environ))). }
  split; [done|]. rewrite (main_after_mkdir _ _ _ Hmk) in Hmain.
  injection Hmain as <-. unfold candidates, Path_glob. by rewrite Hnew.
Qed.

(** X17.  [main] changes no file: a path that named a file before the
    run names a file with the same content after it. *)
Theorem main_preserves_files environ fs fs' stdout q data :
  main.main environ fs = inr (fs', stdout) →
  stat fs q = inr (File data) →
  stat fs' q = inr (File data).
Proof.
  intros Hmk%main_inr. by apply (Path_mkdir_parents_inr _ _ _ _ Hmk).
Qed.

(** X18.  When the wallets path names something that is not a directory
    (a regular file, a dangling link), [main] raises the
    [FileExistsError] of [mkdir] for that path and prints nothing. *)
Theorem main_raises_on_a_file environ fs m :
  lstat fs (Path_of_string (wallets_dir_of environ)) = inr m →
  Path_is_dir fs (Path_of_string (wallets_dir_of environ)) = false →
  main.main environ fs = inl (OSError FileExists (Path_of_string (wallets_dir_of environ))).
Proof.
  intros Hl Hdir. unfold main.main. fold (wallets_dir_of environ).
  unfold Path_mkdir. rewrite Path_mkdir_parents_unfold.
  unfold os_mkdir. rewrite Hl. by rewrite Hdir.
Qed.

(** X19.  The wallets path has no [..] part and not the root [//], so
    that the file tree resolves it as the operating system does.  When
    it is missing from an existing directory, [main] returns: it makes
    the directory and prints the "No wallets found" line. *)
Theorem main_makes_the_directory environ fs :
  plain_parts (Path_of_string (wallets_dir_of environ)) = true →
  lstat fs (Path_of_string (wallets_dir_of environ)) = inl ENOENT →
  Path_of_string (wallets_dir_of environ) ≠ [] →
  Path_is_dir fs (removelast (Path_of_string (wallets_dir_of environ))) = true →
  ∃ fs',
    main.main environ fs = inr (fs', [main.no_wallets_message (wallets_dir_of environ)]) ∧
    stat fs' (Path_of_string (wallets_dir_of environ)) = inr (Dir []).
Proof.
  intros _ Hl Hne Hparent.
  set (base := Path_of_string (wallets_dir_of environ)) in *.
  assert (∃ fs', os_mkdir fs base = inr fs') as [fs' Hos].
  { unfold os_mkdir. rewrite Hl. unfold Path_is_dir in Hparent.
    destruct base; [done|].
    destruct (stat fs (removelast (s :: base))) as [|[]]; try done. by eexists. }
  assert (Path_mkdir fs base = inr fs') as Hmk
    by (unfold Path_mkdir; by rewrite Path_mkdir_parents_unfold, Hos).
  destruct (os_mkdir_creates _ _ _ Hos) as (Hnew & _).
  exists fs'. split; [|done].
  rewrite (main_after_mkdir _ _ _ Hmk). fold base.
  unfold candidates, Path_glob. by rewrite Hnew.
Qed.
End Main.

(** ** The further properties at concrete inputs *)

Section FurtherWitnesses.
Import Examples MoreExamples.

Lemma reference_from_bytes_64 :
  ∀ bs, length bs ≠ 64 → is_ok (@Keypair_from_bytes Reference.platform bs) = false.
Proof.
  intros bs Hlen. simpl. unfold Reference.from_bytes. by rewrite bool_decide_eq_false_2.
Qed.


Lemma key_array_round_trip_witness :
  read_text (H:=Reference.platform) three_files ["wallets"; "a.json"] = Ok key64 ∧
  @json_loads Reference.platform key64 = Ok (JList (json_of_byte <$> byte_range 1 64)) ∧
  @wallet_utils.load_keypair_from_json Reference.platform three_files ["wallets"; "a.json"] =
    Ok (byte_range 1 64).
Proof.
  split; [reflexivity|]. split; [reflexivity|].
  rewrite (@key_array_round_trip Reference.platform three_files ["wallets"; "a.json"]
             key64 (byte_range 1 64) eq_refl eq_refl).
  reflexivity.
Defined.

Lemma key_array_bad_element_witness :
  read_text (H:=Reference.platform) odd_keys ["wallets"; "big.json"] = Ok "[1,2,300,4]" ∧
  @json_loads Reference.platform "[1,2,300,4]" =
    Ok (JList ([JInt 1; JInt 2] ++ JInt 300 :: [JInt 4])) ∧
  @wallet_utils.load_keypair_from_json Reference.platform odd_keys ["wallets"; "big.json"] =
    Raise (Exn ValueError "bytes must be in range(0, 256)").
Proof.
  split; [reflexivity|]. split; [reflexivity|].
  apply (@key_array_bad_element Reference.platform odd_keys ["wallets"; "big.json"]
           "[1,2,300,4]" [JInt 1; JInt 2] (JInt 300) [JInt 4]); reflexivity.
Defined.

Lemma key_array_of_booleans_witness :
  @json_loads MoreExamples.platform ("[" +:+ boolean_items 64 true +:+ "]") =
    Ok (JList (JBool <$> alternating 64 true)) ∧
  @wallet_utils.load_keypair_from_json MoreExamples.platform odd_keys
      ["wallets"; "flags.json"] =
    @Keypair_from_bytes MoreExamples.platform (byte_of_bool <$> alternating 64 true).
Proof.
  split; [reflexivity|].
  apply (@key_array_of_booleans MoreExamples.platform odd_keys ["wallets"; "flags.json"]
           ("[" +:+ boolean_items 64 true +:+ "]") (alternating 64 true));
    [reflexivity | reflexivity | left; reflexivity].
Defined.

Lemma loaded_keypairs_have_64_bytes_witness :
  @wallet_utils.load_keypair_from_json Reference.platform three_files ["wallets"; "a.json"] =
    Ok (byte_range 1 64) ∧
  ∃ text items bs,
    read_text (H:=Reference.platform) three_files ["wallets"; "a.json"] = Ok text ∧
    @json_loads Reference.platform text = Ok (JList items) ∧
    bytes items = Ok bs ∧
    length items = 64 ∧ length bs = 64 ∧
    @Keypair_from_bytes Reference.platform bs = Ok (byte_range 1 64).
Proof.
  split; [reflexivity|].
  apply (@loaded_keypairs_have_64_bytes Reference.platform three_files
           ["wallets"; "a.json"] (byte_range 1 64) reference_from_bytes_64 eq_refl).
Defined.

Lemma load_all_wallets_prints_the_markers_witness :
  ∃ results keypairs stdout,
    @wallet_utils.list_public_keys_with_paths Reference.platform three_files ["wallets"] =
      Ok results ∧
    @wallet_utils.load_all_wallets Reference.platform three_files ["wallets"] =
      Ok (keypairs, stdout) ∧
    Forall2 (λ line e,
        ∃ msg, e.2 = "<error: " +:+ msg +:+ ">" ∧
               line = "Failed to load " +:+ e.1 +:+ ": " +:+ msg)
      stdout (filter (λ e, is_error_marker e.2 = true) results).
Proof.
  apply (@load_all_wallets_prints_the_markers Reference.platform three_files ["wallets"]
           reference_pubkey_not_marker).
Defined.

Lemma scan_of_a_file_is_empty_witness :
  Path_exists three_files ["wallets"; "a.json"] = true ∧
  Path_is_dir three_files ["wallets"; "a.json"] = false ∧
  @wallet_utils.list_public_keys_with_paths Reference.platform three_files
      ["wallets"; "a.json"] = Ok [] ∧
  @wallet_utils.load_all_wallets Reference.platform three_files ["wallets"; "a.json"] =
    Ok ([], []).
Proof.
  split; [reflexivity|]. split; [reflexivity|].
  apply (@scan_of_a_file_is_empty Reference.platform three_files ["wallets"; "a.json"]);
    reflexivity.
Defined.

Lemma candidates_visited_once_witness :
  unique_names (fs_root twice) = true ∧
  NoDup (candidates twice ["wallets"]) ∧
  StronglySorted (λ p q, Path_lt p q = true) (candidates twice ["wallets"]).
Proof.
  split; [reflexivity|]. apply (candidates_visited_once twice ["wallets"]). reflexivity.
Defined.

Lemma mac_scan_raises_without_home_witness :
  @wallet_utilsmac.list_public_keys_with_paths MoreExamples.platform home_wallets
      ["~nobody"; "wallets"] =
    Raise (Exn RuntimeError "Could not determine home directory.") ∧
  @wallet_utilsmac.load_all_wallets MoreExamples.platform home_wallets
      ["~nobody"; "wallets"] =
    Raise (Exn RuntimeError "Could not determine home directory.").
Proof.
  apply (@mac_scan_raises_without_home MoreExamples.platform home_wallets
           "~nobody" ["wallets"]); reflexivity.
Defined.

Lemma mac_scan_partial_failure_witness :
  @expanduser MoreExamples.platform ["~"; "wallets"] = Ok ["/"; "home"; "me"; "wallets"] ∧
  ∃ results keypairs stdout,
    @wallet_utilsmac.list_public_keys_with_paths MoreExamples.platform home_wallets
        ["~"; "wallets"] = Ok results ∧
    @wallet_utilsmac.load_all_wallets MoreExamples.platform home_wallets
        ["~"; "wallets"] = Ok (keypairs, stdout) ∧
    results.*1 = Path_str <$> candidates home_wallets ["/"; "home"; "me"; "wallets"] ∧
    length results = length (Path_glob home_wallets ["/"; "home"; "me"; "wallets"]) ∧
    length keypairs + length stdout =
      length (Path_glob home_wallets ["/"; "home"; "me"; "wallets"]).
Proof.
  split; [reflexivity|].
  apply (@mac_scan_partial_failure MoreExamples.platform home_wallets
           ["~"; "wallets"] ["/"; "home"; "me"; "wallets"] eq_refl).
Defined.

Lemma mac_agrees_on_keypairs_witness :
  tilde_head ["wallets"] = false ∧
  (∀ p, p ∈ Path_glob dangling_link ["wallets"] → tilde_head p = false) ∧
  ∃ results results' keypairs stdout stdout',
    @wallet_utilsmac.list_public_keys_with_paths Reference.platform dangling_link
        ["wallets"] = Ok results ∧
    @wallet_utils.list_public_keys_with_paths Reference.platform dangling_link
        ["wallets"] = Ok results' ∧
    Forall2 (λ e e',
        e.1 = e'.1 ∧
        (e = e' ∨ is_error_marker e.2 = true ∧ is_error_marker e'.2 = true))
      results results' ∧
    @wallet_utilsmac.load_all_wallets Reference.platform dangling_link ["wallets"] =
      Ok (keypairs, stdout) ∧
    @wallet_utils.load_all_wallets Reference.platform dangling_link ["wallets"] =
      Ok (keypairs, stdout') ∧
    length stdout = length stdout'.
Proof.
  assert (∀ p, p ∈ Path_glob dangling_link ["wallets"] → tilde_head p = false) as Hall
    by (apply Forall_forall; compute_done).
  split; [reflexivity|]. split; [exact Hall|].
  apply (@mac_agrees_on_keypairs Reference.platform dangling_link ["wallets"] eq_refl Hall).
Defined.

Lemma mac_is_wallet_utils_after_expanduser_witness :
  @expanduser MoreExamples.platform ["~"; "wallets"] = Ok ["/"; "home"; "me"; "wallets"] ∧
  @wallet_utilsmac.list_public_keys_with_paths MoreExamples.platform home_wallets
      ["~"; "wallets"] =
    @wallet_utils.list_public_keys_with_paths MoreExamples.platform home_wallets
      ["/"; "home"; "me"; "wallets"] ∧
  @wallet_utilsmac.load_all_wallets MoreExamples.platform home_wallets ["~"; "wallets"] =
    @wallet_utils.load_all_wallets MoreExamples.platform home_wallets
      ["/"; "home"; "me"; "wallets"].
Proof.
  split; [reflexivity|].
  apply (@mac_is_wallet_utils_after_expanduser MoreExamples.platform home_wallets
           ["~"; "wallets"] ["/"; "home"; "me"; "wallets"] eq_refl).
  apply Forall_forall. compute_done.
Defined.

Lemma main_reports_every_candidate_witness :
  Path_mkdir three_files (Path_of_string (wallets_dir_of (environ_with None))) =
    inr three_files ∧
  @main.main Reference.platform (environ_with None) three_files =
    inr (three_files,
         ["Discovered wallets:";
          "- wallets/a.json: 3ELeRTTg5W5hAYaEFznzFV1jknNFkjHqS8ytwvQEQP1Z";
          "- wallets/b.json: <error: Invalid key file format (expected array): wallets/b.json>";
          "- wallets/c.json: <error: expected a sequence of length 64 (got 32)>"]).
Proof.
  split; [reflexivity|].
  destruct (@main_reports_every_candidate Reference.platform (environ_with None)
              three_files three_files eq_refl) as (entries & Hlist & _ & Hmain).
  rewrite Hmain. injection Hlist as <-. reflexivity.
Defined.

Lemma main_only_mkdir_raises_witness :
  @main.main Reference.platform (environ_with (Some "README.md")) no_wallets =
    inl (OSError FileExists ["README.md"]) ∧
  ∃ cls p,
    OSError FileExists ["README.md"] = OSError cls p ∧
    Path_mkdir no_wallets
      (Path_of_string (wallets_dir_of (environ_with (Some "README.md")))) = inl (cls, p).
Proof.
  split; [reflexivity|].
  apply (@main_only_mkdir_raises Reference.platform (environ_with (Some "README.md"))
           no_wallets (OSError FileExists ["README.md"]) eq_refl).
Defined.

Lemma main_existing_directory_witness :
  Path_is_dir three_files (Path_of_string (wallets_dir_of (environ_with None))) = true ∧
  ∃ entries,
    @wallet_utils.list_public_keys_with_paths Reference.platform three_files
        (Path_of_string (wallets_dir_of (environ_with None))) = Ok entries ∧
    @main.main Reference.platform (environ_with None) three_files =
      inr (three_files, report (wallets_dir_of (environ_with None)) entries).
Proof.
  split; [reflexivity|].
  apply (@main_existing_directory Reference.platform (environ_with None) three_files).
  reflexivity.
Defined.

Lemma main_new_directory_witness :
  plain_parts (Path_of_string (wallets_dir_of (environ_with None))) = true ∧
  Path_exists no_wallets (Path_of_string (wallets_dir_of (environ_with None))) = false ∧
  @main.main Reference.platform (environ_with None) no_wallets =
    inr (no_wallets_after, [main.no_wallets_message "wallets"]) ∧
  stat no_wallets_after (Path_of_string (wallets_dir_of (environ_with None))) =
    inr (Dir []).
Proof.
  split; [reflexivity|]. split; [reflexivity|]. split; [reflexivity|].
  apply (@main_new_directory Reference.platform (environ_with None) no_wallets
           no_wallets_after [main.no_wallets_message "wallets"] eq_refl eq_refl eq_refl).
Defined.

Lemma main_preserves_files_witness :
  stat no_wallets ["README.md"] = inr (File "bot") ∧
  stat no_wallets_after ["README.md"] = inr (File "bot").
Proof.
  split; [reflexivity|].
  apply (@main_preserves_files Reference.platform (environ_with None) no_wallets
           no_wallets_after [main.no_wallets_message "wallets"] ["README.md"] "bot");
    reflexivity.
Defined.

Lemma main_raises_on_a_file_witness :
  lstat no_wallets (Path_of_string (wallets_dir_of (environ_with (Some "README.md")))) =
    inr (File "bot") ∧
  @main.main Reference.platform (environ_with (Some "README.md")) no_wallets =
    inl (OSError FileExists ["README.md"]).
Proof.
  split; [reflexivity|].
  apply (@main_raises_on_a_file Reference.platform (environ_with (Some "README.md"))
           no_wallets (File "bot")); reflexivity.
Defined.

Lemma main_makes_the_directory_witness :
  plain_parts (Path_of_string (wallets_dir_of (environ_with None))) = true ∧
  lstat no_wallets (Path_of_string (wallets_dir_of (environ_with None))) = inl ENOENT ∧
  ∃ fs',
    @main.main Reference.platform (environ_with None) no_wallets =
      inr (fs', [main.no_wallets_message (wallets_dir_of (environ_with None))]) ∧
    stat fs' (Path_of_string (wallets_dir_of (environ_with None))) = inr (Dir []).
Proof.
  split; [reflexivity|]. split; [reflexivity|].
  apply (@main_makes_the_directory Reference.platform (environ_with None) no_wallets);
    [reflexivity | reflexivity | discriminate | reflexivity].
Defined.
End FurtherWitnesses.
